(** * ccl-ssns: the Chrome SNSS session decoder, embedded and verified

    A shallow embedding of the three Python modules of the repository
    - [ccl_chrome_pickle.py]     (the length-prefixed record reader),
    - [ccl_chrome_tab_state.py]  (transitions, HTTP bodies, frame and page
                                  states, navigation entries),
    - [Chrome-SNSS-Parse-OS.py]  (the container command stream, the Blink
                                  form-state format and the driver),
    followed by the properties of the specification that were checked
    against them.

    Conventions of the embedding.
    - Python [bytes] are [list byte]; Python [int] is [Z]; a Python [str] is
      the list of its code points.
    - An [io.BytesIO] is its buffer and a cursor.  Every read is written as
      explicit state passing: a method [m(self)] becomes a function from the
      reader to the new reader and what the method returned.
    - A raised exception that nothing in the repository catches is the
      [Raise] outcome of the [result] monad.  The two exceptions the reader
      catches itself ([struct.error] and [EOFError]) are returned next to
      the stream they leave behind, so the handler sees the advanced cursor.
    - The [current] slot of a reader is dynamically typed in the source; it
      is the sum type [value] here. *)

From Stdlib Require Import ZArith List Lia Bool Ascii String.
From Stdlib Require Import Strings.Byte.
From stdpp Require Import base option list gmap strings.

Open Scope Z_scope.

(** ** Exceptions and the outcome of a call *)

Inductive exn : Type :=
  | StructError
  | EOFError
  | ValueError (msg : string)
  | TypeError
  | KeyError
  | IndexError
  | AssertionError
  | AttributeError
  | OverflowError
  | UnicodeDecodeError
  | StopIteration
  | RecursionError
  | SsnsError
  | SystemExit (code : Z).

Inductive result (A : Type) : Type :=
  | OK (a : A)
  | Raise (e : exn).
Arguments OK {A} a.
Arguments Raise {A} e.

#[global] Instance result_ret : MRet result := fun A a => OK a.
#[global] Instance result_bind : MBind result := fun A B f m =>
  match m with
  | OK a => f a
  | Raise e => Raise e
  end.

Definition returns {A} (r : result A) : bool :=
  match r with OK _ => true | Raise _ => false end.

(** ** Bytes and [struct.unpack] *)

#[global] Instance byte_eq_decision : EqDecision byte := Byte.byte_eq_dec.

Definition byte_val (b : byte) : Z := Z.of_N (Byte.to_N b).

Definition byte_of_Z (z : Z) : byte :=
  default Byte.x00 (Byte.of_N (Z.to_N (z mod 256))).

Definition bytes_of (l : list Z) : list byte := map byte_of_Z l.

(** The little-endian unsigned value of a byte string. *)
Fixpoint le_unsigned (bs : list byte) : Z :=
  match bs with
  | [] => 0
  | b :: rest => byte_val b + 256 * le_unsigned rest
  end.

(** Two's complement reading of an unsigned [w]-bit value. *)
Definition to_signed (w : Z) (u : Z) : Z :=
  if u <? 2 ^ (w - 1) then u else u - 2 ^ w.

(** [struct.unpack("<fmt", x)[0]] for a format of [size] bytes:
    [struct.error] unless [x] has exactly [size] bytes. *)
Definition unpack_unsigned (size : nat) (x : list byte) : result Z :=
  if decide (length x = size) then OK (le_unsigned x) else Raise StructError.

Definition unpack_signed (size : nat) (x : list byte) : result Z :=
  u ← unpack_unsigned size x; OK (to_signed (8 * Z.of_nat size) u).

(** ** [io.BytesIO] *)

Record BytesIO : Type := mkBytesIO { buf : list byte; pos : nat }.

Definition BytesIO_new (blob : list byte) : BytesIO := mkBytesIO blob 0.

Definition remaining (s : BytesIO) : list byte := drop (pos s) (buf s).

(** [stream.read(size)]: at most [size] bytes from the cursor, all that
    remain when [size] is negative; the cursor moves past what was read. *)
Definition BytesIO_read (s : BytesIO) (size : Z) : list byte * BytesIO :=
  let out := if size <? 0 then remaining s
             else take (Z.to_nat size) (remaining s) in
  (out, mkBytesIO (buf s) (pos s + length out)).

(** [stream.seek(offset, 1)] for an offset that is not negative; the cursor
    may pass the end of the buffer. *)
Definition BytesIO_seek_cur (s : BytesIO) (offset : Z) : BytesIO :=
  mkBytesIO (buf s) (pos s + Z.to_nat offset).

(** ** Python strings and the two codecs *)

Definition pystr : Type := list Z.

Definition str_of_string (s : string) : pystr :=
  map (fun a => Z.of_N (N_of_ascii a)) (list_ascii_of_string s).

Definition is_cont (b : Z) : bool := (128 <=? b) && (b <=? 191).
Definition cont_bits (b : Z) : Z := b - 128.
Definition in_range (lo hi b : Z) : bool := (lo <=? b) && (b <=? hi).

(** [bytes.decode("utf-8")], strict: the well-formed byte sequences of the
    Unicode standard (no overlong forms, no surrogates, nothing above
    U+10FFFF); [None] is [UnicodeDecodeError]. *)
Fixpoint utf8_decode (bs : list Z) : option pystr :=
  match bs with
  | [] => Some []
  | b0 :: r0 =>
    if b0 <? 128 then cons b0 <$> utf8_decode r0
    else match r0 with
    | [] => None
    | b1 :: r1 =>
      if in_range 194 223 b0 then
        if is_cont b1
        then cons ((b0 - 192) * 64 + cont_bits b1) <$> utf8_decode r1
        else None
      else match r1 with
      | [] => None
      | b2 :: r2 =>
        if in_range 224 239 b0 then
          if (if b0 =? 224 then in_range 160 191 b1
              else if b0 =? 237 then in_range 128 159 b1
              else is_cont b1) && is_cont b2
          then cons ((b0 - 224) * 4096 + cont_bits b1 * 64 + cont_bits b2)
                 <$> utf8_decode r2
          else None
        else match r2 with
        | [] => None
        | b3 :: r3 =>
          if in_range 240 244 b0 then
            if (if b0 =? 240 then in_range 144 191 b1
                else if b0 =? 244 then in_range 128 143 b1
                else is_cont b1) && is_cont b2 && is_cont b3
            then cons ((b0 - 240) * 262144 + cont_bits b1 * 4096
                       + cont_bits b2 * 64 + cont_bits b3)
                   <$> utf8_decode r3
            else None
          else None
        end
      end
    end
  end.

(** [bytes.decode("utf-16-le")], strict: 16-bit little-endian units, a high
    surrogate must be followed by a low one, a lone low surrogate or a
    dangling byte is [UnicodeDecodeError]. *)
Fixpoint utf16le_decode (bs : list Z) : option pystr :=
  match bs with
  | [] => Some []
  | [_] => None
  | lo :: hi :: r0 =>
    let u := lo + 256 * hi in
    if in_range 55296 56319 u then
      match r0 with
      | lo2 :: hi2 :: r1 =>
        let u2 := lo2 + 256 * hi2 in
        if in_range 56320 57343 u2
        then cons (65536 + (u - 55296) * 1024 + (u2 - 56320))
               <$> utf16le_decode r1
        else None
      | _ => None
      end
    else if in_range 56320 57343 u then None
    else cons u <$> utf16le_decode r0
  end.

Definition decode (codec : list Z -> option pystr) (b : list byte)
  : result pystr :=
  match codec (map byte_val b) with
  | Some s => OK s
  | None => Raise UnicodeDecodeError
  end.

(** ** ccl_chrome_pickle.py *)

Inductive PickleType : Type :=
  | Bool | Int16 | UInt16 | Int32 | UInt32 | Int64 | UInt64 | Single
  | Double | Blob | String | String16 | DateTime | Pickle
  | String16ByteCount.

(** The attributes of a [PickleReader]; [blob_length] is the attribute the
    source calls [length]. *)
Record PickleReaderOf (V : Type) : Type := mkPickleReader {
  _stream : BytesIO;
  pickle_length : Z;
  current : V;
  blob_length : nat
}.
Arguments mkPickleReader {V}.
Arguments _stream {V}.
Arguments pickle_length {V}.
Arguments current {V}.
Arguments blob_length {V}.

(** What the [current] slot can hold.  A float is kept as the bit pattern
    [struct.unpack] was given; a [datetime] as its distance in microseconds
    from 1601-01-01T00:00:00. *)
#[warnings="-register-all"]
Inductive value : Type :=
  | VNone
  | VBool (b : bool)
  | VInt (z : Z)
  | VSingle (bits : Z)
  | VDouble (bits : Z)
  | VBytes (b : list byte)
  | VStr (s : pystr)
  | VDateTime (microseconds : Z)
  | VPickle (r : PickleReaderOf value).

Definition PickleReader : Type := PickleReaderOf value.

Definition set_stream (rd : PickleReader) (s : BytesIO) : PickleReader :=
  mkPickleReader s (pickle_length rd) (current rd) (blob_length rd).

Definition set_current (rd : PickleReader) (v : value) : PickleReader :=
  mkPickleReader (_stream rd) (pickle_length rd) v (blob_length rd).

(** Python truth value of what the slot holds. *)
Definition truthy (v : value) : bool :=
  match v with
  | VNone => false
  | VBool b => b
  | VInt z => negb (z =? 0)
  | VSingle bits => negb (bits mod 2 ^ 31 =? 0)
  | VDouble bits => negb (bits mod 2 ^ 63 =? 0)
  | VBytes b => negb (bool_decide (b = []))
  | VStr s => negb (bool_decide (s = []))
  | VDateTime _ => true
  | VPickle _ => true
  end.

(** The private readers.  Each returns what [struct.unpack] gave, or the
    [struct.error] it raised, and the stream after the [read]. *)
Definition _read_int16 (s : BytesIO) : result Z * BytesIO :=
  let '(x, s) := BytesIO_read s 4 in (unpack_signed 2 (take 2 x), s).

Definition _read_int32 (s : BytesIO) : result Z * BytesIO :=
  let '(x, s) := BytesIO_read s 4 in (unpack_signed 4 x, s).

Definition _read_int64 (s : BytesIO) : result Z * BytesIO :=
  let '(x, s) := BytesIO_read s 8 in (unpack_signed 8 x, s).

Definition _read_uint16 (s : BytesIO) : result Z * BytesIO :=
  let '(x, s) := BytesIO_read s 4 in (unpack_unsigned 2 (take 2 x), s).

Definition _read_uint32 (s : BytesIO) : result Z * BytesIO :=
  let '(x, s) := BytesIO_read s 4 in (unpack_unsigned 4 x, s).

Definition _read_uint64 (s : BytesIO) : result Z * BytesIO :=
  let '(x, s) := BytesIO_read s 8 in (unpack_unsigned 8 x, s).

Definition _read_single (s : BytesIO) : result Z * BytesIO :=
  let '(x, s) := BytesIO_read s 4 in (unpack_unsigned 4 x, s).

Definition _read_double (s : BytesIO) : result Z * BytesIO :=
  let '(x, s) := BytesIO_read s 8 in (unpack_unsigned 8 x, s).

Definition _read_raw (s : BytesIO) (len : Z) : result (list byte) * BytesIO :=
  let '(blob, s) := BytesIO_read s len in
  if Z.of_nat (length blob) <? len then (Raise EOFError, s)
  else
    let alignment := if negb (len mod 4 =? 0) then 4 - len mod 4 else 0 in
    (OK blob, BytesIO_seek_cur s alignment).

(** [PickleReader(blob)]. *)
Definition PickleReader_init (blob : list byte) : result PickleReader :=
  let '(r, s) := _read_int32 (BytesIO_new blob) in
  match r with
  | Raise StructError => Raise EOFError
  | Raise e => Raise e
  | OK declared =>
    if negb (Z.of_nat (length blob) - 4 =? declared)
    then Raise (ValueError "Declared pickle length not equal to blob length")
    else OK (mkPickleReader s declared VNone (length blob))
  end.

(** The shape shared by the scalar reads:
    [try: self.current = conv(read()) / except struct.error:
     self.current = None; return False / return True]. *)
Definition try_struct (read : BytesIO -> result Z * BytesIO)
    (conv : Z -> value) (rd : PickleReader) : result (bool * PickleReader) :=
  let '(r, s) := read (_stream rd) in
  match r with
  | OK x => OK (true, set_current (set_stream rd s) (conv x))
  | Raise StructError => OK (false, set_current (set_stream rd s) VNone)
  | Raise e => Raise e
  end.

Definition read_short := try_struct _read_int16 VInt.
Definition read_int := try_struct _read_int32 VInt.
Definition read_long := try_struct _read_int64 VInt.
Definition read_ushort := try_struct _read_uint16 VInt.
Definition read_uint := try_struct _read_uint32 VInt.
Definition read_ulong := try_struct _read_uint64 VInt.
Definition read_bool := try_struct _read_int32 (fun x => VBool (negb (x =? 0))).
Definition read_single := try_struct _read_single VSingle.
Definition read_double := try_struct _read_double VDouble.

(** The microseconds from 1601-01-01 to [datetime.min] (0001-01-01) and to
    the first instant after [datetime.max] (10000-01-01): 1600 and 8399
    Gregorian years, in days of 86400 seconds. *)
Definition datetime_min_us : Z := - (584388 * 86400000000).
Definition datetime_end_us : Z := 3067671 * 86400000000.

(** [datetime.datetime(1601, 1, 1) + datetime.timedelta(microseconds=x)]. *)
Definition datetime_from_1601 (x : Z) : result value :=
  if (datetime_min_us <=? x) && (x <? datetime_end_us)
  then OK (VDateTime x) else Raise OverflowError.

Definition read_timestamp (rd : PickleReader) : result (bool * PickleReader) :=
  let '(r, s) := _read_int64 (_stream rd) in
  match r with
  | Raise StructError => OK (false, set_current (set_stream rd s) VNone)
  | Raise e => Raise e
  | OK x =>
    v ← datetime_from_1601 x;
    OK (true, set_current (set_stream rd s) v)
  end.

Definition read_blob (is_doubled_length : bool) (rd : PickleReader)
  : result (bool * PickleReader) :=
  let '(r, s) := _read_int32 (_stream rd) in
  match r with
  | Raise StructError => OK (false, set_current (set_stream rd s) VNone)
  | Raise e => Raise e
  | OK len =>
    if len =? -1 then OK (true, set_current (set_stream rd s) VNone)
    else
      let '(r, s) := _read_raw s (len * (if is_doubled_length then 2 else 1)) in
      match r with
      | OK blob => OK (true, set_current (set_stream rd s) (VBytes blob))
      | Raise EOFError => OK (false, set_current (set_stream rd s) VNone)
      | Raise e => Raise e
      end
  end.

(** [if success and self.current is not None:
     self.current = self.current.decode(codec)]. *)
Definition decode_current (codec : list Z -> option pystr)
    (r : bool * PickleReader) : result (bool * PickleReader) :=
  let '(success, rd) := r in
  match success, current rd with
  | true, VBytes b => s ← decode codec b; OK (success, set_current rd (VStr s))
  | _, _ => OK (success, rd)
  end.

Definition read_str (rd : PickleReader) : result (bool * PickleReader) :=
  r ← read_blob false rd; decode_current utf8_decode r.

Definition read_str16_with_byte_count (rd : PickleReader)
  : result (bool * PickleReader) :=
  r ← read_blob false rd; decode_current utf16le_decode r.

Definition read_str16_with_char_count (rd : PickleReader)
  : result (bool * PickleReader) :=
  r ← read_blob true rd; decode_current utf16le_decode r.

Definition read_pickle (rd : PickleReader) : result (bool * PickleReader) :=
  let '(length_buff, s) := BytesIO_read (_stream rd) 4 in
  if negb (bool_decide (length length_buff = 4%nat))
  then OK (false, set_current (set_stream rd s) VNone)
  else
    len ← unpack_signed 4 length_buff;
    let '(pickle_buff, s) := BytesIO_read s len in
    if negb (Z.of_nat (length pickle_buff) =? len)
    then OK (false, set_current (set_stream rd s) VNone)
    else
      p ← PickleReader_init (length_buff ++ pickle_buff);
      OK (true, set_current (set_stream rd s) (VPickle p)).

Definition _func_lookup (t : PickleType)
  : PickleReader -> result (bool * PickleReader) :=
  match t with
  | Bool => read_bool
  | Int16 => read_short
  | UInt16 => read_ushort
  | Int32 => read_int
  | UInt32 => read_uint
  | Int64 => read_long
  | UInt64 => read_ulong
  | Single => read_single
  | Double => read_double
  | Blob => read_blob false
  | String => read_str
  | String16 => read_str16_with_char_count
  | DateTime => read_timestamp
  | Pickle => read_pickle
  | String16ByteCount => read_str16_with_byte_count
  end.

(** [deserialise_into_dict]: the loop over [fields], threading the reader
    and the dictionary built so far.  The two [isinstance] checks hold by
    typing. *)
Fixpoint deserialise_fields (fields : list (string * PickleType))
    (raise_on_missing : bool) (rd : PickleReader) (d : gmap string value)
  : result (gmap string value * PickleReader) :=
  match fields with
  | [] => OK (d, rd)
  | (field, field_type) :: fields =>
    '(success, rd) ← _func_lookup field_type rd;
    if negb success && raise_on_missing
    then Raise (ValueError "Field: {0} couldn't be read.")
    else
      let d := if negb (bool_decide (is_Some (d !! field))) || success
               then <[field := current rd]> d else d in
      deserialise_fields fields raise_on_missing rd d
  end.

Definition deserialise_into_dict (rd : PickleReader)
    (fields : list (string * PickleType)) (raise_on_missing : bool)
  : result (gmap string value * PickleReader) :=
  deserialise_fields fields raise_on_missing rd ∅.

(** [str(field_type)] for a member of the enumeration. *)
Definition PickleType_str (t : PickleType) : string :=
  ("PickleType." ++
   match t with
   | Bool => "Bool" | Int16 => "Int16" | UInt16 => "UInt16"
   | Int32 => "Int32" | UInt32 => "UInt32" | Int64 => "Int64"
   | UInt64 => "UInt64" | Single => "Single" | Double => "Double"
   | Blob => "Blob" | String => "String" | String16 => "String16"
   | DateTime => "DateTime" | Pickle => "Pickle"
   | String16ByteCount => "String16ByteCount"
   end)%string.

(** [iter_deserialise], run to the end as [tuple(...)] does: the values
    yielded, in order.  Unlike [deserialise_into_dict], it formats the
    message of its [ValueError] with the field type. *)
Fixpoint iter_deserialise (rd : PickleReader) (fields : list PickleType)
    (raise_on_missing : bool) : result (list value * PickleReader) :=
  match fields with
  | [] => OK ([], rd)
  | field_type :: fields =>
    '(success, rd) ← _func_lookup field_type rd;
    if negb success && raise_on_missing
    then Raise (ValueError ("Field: " ++ PickleType_str field_type
                            ++ " couldn't be read."))
    else
      let v := current rd in
      '(vs, rd) ← iter_deserialise rd fields raise_on_missing;
      OK (v :: vs, rd)
  end.

(** ** ccl_chrome_tab_state.py *)

Definition IS_ANDROID : bool := true.

(** *** ChromeTransition *)

Module ChromeTransition.

Definition _core_mask : Z := 0xff.
Definition _qualifier_mask : Z := 0xffffff00.

Definition _core_transitions : list (Z * string) :=
  [ (0, "Link"); (1, "Typed"); (2, "AutoBookmark"); (3, "AutoSubframe");
    (4, "ManualSubframe"); (5, "Generated"); (6, "AutoToplevel");
    (7, "FormSubmit"); (8, "Reload"); (9, "Keyword");
    (10, "KeywordGenerated") ]%string.

(** In the order of the dictionary literal, which is the order the
    constructor iterates in. *)
Definition _qualifiers : list (Z * string) :=
  [ (0x00800000, "Blocked"); (0x01000000, "ForwardBack");
    (0x02000000, "FromAddressBar"); (0x04000000, "HomePage");
    (0x08000000, "FromApi"); (0x10000000, "ChainStart");
    (0x20000000, "ChainEnd"); (0x40000000, "ClientRedirect");
    (0x80000000, "ServerRedirect") ]%string.

(** [table[key]] on a dictionary literal. *)
Fixpoint dict_get {A} (table : list (Z * A)) (key : Z) : result A :=
  match table with
  | [] => Raise KeyError
  | (k, v) :: table => if k =? key then OK v else dict_get table key
  end.

Record t : Type := mk {
  value : Z;
  core_transition : string;
  qualifiers : list string
}.

(** [ChromeTransition(value)] for an integer [value]. *)
Definition __init__ (value : Z) : result t :=
  let self_value := value in
  let value := if value <? 0 then value + 0x80000000 * 2 else value in
  core ← dict_get _core_transitions (Z.land value _core_mask);
  OK (mk self_value core
        (map snd
           (filter (fun q => 0 <? Z.land (Z.land value _qualifier_mask) (fst q))
                   _qualifiers))).

End ChromeTransition.

(** [range(v)] as a number of iterations: an integer (a negative one gives
    none), [TypeError] on [None] and on anything that is not an integer. *)
Definition py_range (v : value) : result nat :=
  match v with
  | VInt z => OK (Z.to_nat z)
  | VBool b => OK (if b then 1%nat else 0%nat)
  | _ => Raise TypeError
  end.

(** [v == n] for an integer literal [n]. *)
Definition eq_int (v : value) (n : Z) : bool :=
  match v with
  | VInt z => z =? n
  | VBool b => (if b then 1 else 0) =? n
  | _ => false
  end.

Fixpoint read_strings (count : nat) (rd : PickleReader) (acc : list value)
  : result (list value * PickleReader) :=
  match count with
  | O => OK (acc, rd)
  | S count =>
    '(ok, rd) ← read_str16_with_byte_count rd;
    if negb ok then Raise EOFError
    else read_strings count rd (acc ++ [current rd])
  end.

Definition read_string_vector_from_page_state_pickle (rd : PickleReader)
  : result (list value * PickleReader) :=
  '(ok, rd) ← read_int rd;
  if negb ok then Raise EOFError
  else count ← py_range (current rd); read_strings count rd [].

(** The double stored as an 8-byte blob; [len(None)] is a [TypeError]. *)
Definition read_double_from_page_state_pickle (rd : PickleReader)
  : result (value * PickleReader) :=
  '(_, rd) ← read_blob false rd;
  match current rd with
  | VBytes b =>
    if bool_decide (length b = 8%nat)
    then x ← unpack_unsigned 8 b; OK (VDouble x, rd)
    else Raise AssertionError
  | _ => Raise TypeError
  end.

(** *** HttpBody *)

Module HttpBody.

Record t : Type := mk {
  body_data : list value;
  file_ranges : list (value * value * value * value);
  blobs : list value;
  identifier : value;
  contains_passwords : value;
  content_type : value
}.

Definition __init__ (body_data : list value)
    (file_ranges : list (value * value * value * value))
    (blobs : list value) (identifier contains_passwords : value) : t :=
  mk body_data file_ranges blobs identifier contains_passwords VNone.

Definition set_content_type (b : t) (v : value) : t :=
  mk (body_data b) (file_ranges b) (blobs b) (identifier b)
     (contains_passwords b) v.

(** The three lists the element loop appends to. *)
Definition lists : Type :=
  list value * list (value * value * value * value) * list value.

(** One turn of [for i in range(element_count)]. *)
Definition element (version : Z) (rd : PickleReader) (acc : lists)
  : result (lists * PickleReader) :=
  let '(http_body_data, http_file_ranges, http_blobs) := acc in
  '(_, rd) ← read_int rd;
  let body_type := current rd in
  if eq_int body_type 0 then
    '(ok, rd) ← read_blob false rd;
    if ok && truthy (current rd)
    then OK ((http_body_data ++ [current rd], http_file_ranges, http_blobs), rd)
    else OK (acc, rd)
  else if eq_int body_type 1 || eq_int body_type 3 then
    '(_, rd) ← (if eq_int body_type 1
                then read_str16_with_byte_count rd else read_str rd);
    let file_path := current rd in
    '(_, rd) ← read_long rd;
    let file_start := current rd in
    '(_, rd) ← read_long rd;
    let file_length := current rd in
    '(file_modification_time, rd) ← read_double_from_page_state_pickle rd;
    OK ((http_body_data,
         http_file_ranges
           ++ [(file_path, file_start, file_length, file_modification_time)],
         http_blobs), rd)
  else if eq_int body_type 2 then
    '(_, rd) ← read_str rd;
    if version >=? 16
    then OK ((http_body_data, http_file_ranges, http_blobs ++ [current rd]), rd)
    else OK (acc, rd)
  else Raise (ValueError "Invalid WebHTTPBody::Element::Element type").

Fixpoint elements (count : nat) (version : Z) (rd : PickleReader)
    (acc : lists) : result (lists * PickleReader) :=
  match count with
  | O => OK (acc, rd)
  | S count =>
    '(acc, rd) ← element version rd acc; elements count version rd acc
  end.

Definition from_pickle (rd : PickleReader) (version : Z)
  : result (option t * PickleReader) :=
  '(_, rd) ← read_bool rd;
  if negb (truthy (current rd)) then OK (None, rd)
  else
    '(_, rd) ← read_int rd;
    let element_count := current rd in
    count ← py_range element_count;
    '(acc, rd) ← elements count version rd ([], [], []);
    let '(http_body_data, http_file_ranges, http_blobs) := acc in
    '(_, rd) ← read_long rd;
    let identifier := current rd in
    '(contains_passwords, rd) ←
      (if version >=? 12
       then '(_, rd) ← read_bool rd; OK (current rd, rd)
       else OK (VBool true, rd));
    OK (Some (__init__ http_body_data http_file_ranges http_blobs
                identifier contains_passwords), rd).

End HttpBody.

(** *** FrameState *)

Module FrameState.

#[warnings="-register-all"]
Inductive t : Type := mk {
  version : Z;
  url_string : value;
  target : value;
  scroll_offset : value * value;
  referrer : value;
  document_state : list value;
  page_scale_factor : value;
  item_sequence_number : value;
  document_sequence_number : value;
  referrer_policy : value;
  pinch_viewport_scroll_offset : value * value;
  scroll_restoration_type : value;
  state_object : value;
  http_body : option HttpBody.t;
  child_states : list t
}.

(** A read whose outcome is ignored, only when [cond] holds. *)
Definition when (cond : bool)
    (read : PickleReader -> result (bool * PickleReader)) (rd : PickleReader)
  : result PickleReader :=
  if cond then '(_, rd) ← read rd; OK rd else OK rd.

(** [FrameState.from_pickle].  [depth] bounds how deep the calls may nest,
    as the interpreter's recursion limit does: a frame tree nested deeper
    ends in [RecursionError]. *)
Fixpoint from_pickle (depth : nat) (rd : PickleReader) (version : Z)
    (is_top : bool) {struct depth} : result (t * PickleReader) :=
  match depth with
  | O => Raise RecursionError
  | S depth =>
    rd ← when ((version <? 14) && negb is_top) read_int rd;
    '(_, rd) ← read_str16_with_byte_count rd;
    let url_string := current rd in
    rd ← when (version <? 19) read_str16_with_byte_count rd;
    '(_, rd) ← read_str16_with_byte_count rd;
    let target := current rd in
    rd ← (if version <? 15 then
            '(_, rd) ← read_str16_with_byte_count rd;
            '(_, rd) ← read_str16_with_byte_count rd;
            '(_, rd) ← read_str16_with_byte_count rd;
            '(_, rd) ← read_double_from_page_state_pickle rd;
            OK rd
          else OK rd);
    '(_, rd) ← read_int rd;
    let x := current rd in
    '(_, rd) ← read_int rd;
    let y := current rd in
    let scroll_offset := (x, y) in
    rd ← (if version <? 15 then
            '(_, rd) ← read_bool rd; '(_, rd) ← read_int rd; OK rd
          else OK rd);
    '(_, rd) ← read_str16_with_byte_count rd;
    let referrer := current rd in
    '(document_state, rd) ← read_string_vector_from_page_state_pickle rd;
    '(page_scale_factor, rd) ← read_double_from_page_state_pickle rd;
    '(_, rd) ← read_long rd;
    let item_sequence_number := current rd in
    '(_, rd) ← read_long rd;
    let document_sequence_number := current rd in
    rd ← when ((version >=? 21) && (version <? 23)) read_long rd;
    rd ← when ((version >=? 17) && (version <? 19)) read_long rd;
    '(referrer_policy, rd) ←
      (if version >=? 18
       then '(_, rd) ← read_int rd; OK (current rd, rd)
       else OK (VInt (-1), rd));
    '(pinch_viewport_scroll_offset, rd) ←
      (if version >=? 20 then
         '(x, rd) ← read_double_from_page_state_pickle rd;
         '(y, rd) ← read_double_from_page_state_pickle rd;
         OK ((x, y), rd)
       else OK ((VInt (-1), VInt (-1)), rd));
    '(scroll_restoration_type, rd) ←
      (if version >=? 22
       then '(_, rd) ← read_int rd; OK (current rd, rd)
       else OK (VInt (-1), rd));
    '(_, rd) ← read_bool rd;
    '(state_object, rd) ←
      (if truthy (current rd)
       then '(_, rd) ← read_str16_with_byte_count rd; OK (current rd, rd)
       else OK (VNone, rd));
    '(http_body, rd) ← HttpBody.from_pickle rd version;
    '(_, rd) ← read_str16_with_byte_count rd;
    let http_body :=
      (fun b => HttpBody.set_content_type b (current rd)) <$> http_body in
    rd ← when (version <? 14) read_str16_with_byte_count rd;
    rd ← (if IS_ANDROID && (version =? 11) then
            '(_, rd) ← read_double_from_page_state_pickle rd;
            '(_, rd) ← read_bool rd;
            OK rd
          else OK rd);
    '(_, rd) ← read_int rd;
    let child_count := current rd in
    count ← py_range child_count;
    '(children_states, rd) ←
      (fix children (count : nat) (rd : PickleReader) (acc : list t)
         : result (list t * PickleReader) :=
         match count with
         | O => OK (acc, rd)
         | S count =>
           '(child, rd) ← from_pickle depth rd version false;
           children count rd (acc ++ [child])
         end) count rd [];
    OK (mk version url_string target scroll_offset referrer document_state
          page_scale_factor item_sequence_number document_sequence_number
          referrer_policy pinch_viewport_scroll_offset
          scroll_restoration_type state_object http_body children_states,
        rd)
  end.

End FrameState.

(** *** PageState *)

Module PageState.

Definition MIN_VERSION : Z := 11.
Definition CURRENT_VERSION : Z := 23.

Record t : Type := mk {
  version : value;
  referenced_files : option (list value);
  frame_state : option FrameState.t;
  url : value
}.

Definition from_pickle (depth : nat) (rd : PickleReader)
  : result (t * PickleReader) :=
  '(ok, rd) ← read_int rd;
  if negb ok then Raise EOFError
  else
    match current rd with
    | VInt version =>
      if version =? -1 then
        '(_, rd) ← read_str rd;
        OK (mk VNone None None (current rd), rd)
      else if (version >? CURRENT_VERSION) || (version <? MIN_VERSION)
      then Raise (ValueError "invalid PageState Version")
      else
        '(referenced_files, rd) ←
          (if version >=? 14
           then read_string_vector_from_page_state_pickle rd
           else OK ([], rd));
        '(frame_state, rd) ← FrameState.from_pickle depth rd version true;
        OK (mk (VInt version) (Some referenced_files) (Some frame_state)
              VNone, rd)
    | _ => Raise TypeError
    end.

End PageState.

(** *** NavigationEntry *)

Module NavigationEntry.

Record t : Type := mk {
  index : value;
  url : value;
  title : value;
  page_state : option PageState.t;
  transition_type : ChromeTransition.t;
  type_mask : value;
  referrer_url : value;
  referrer_policy : value;
  original_request_url : value;
  is_overriding_user_agent : value;
  timestamp : value;
  search_terms : value;
  http_status_code : value
}.

(** A keyword argument with its default. *)
Definition kwarg (kwargs : gmap string value) (name : string)
    (default_value : value) : value :=
  default default_value (kwargs !! name).

(** The constructor, called with the dictionary as keyword arguments.  The page-state blob, when it is not
    empty, is parsed as a record of its own; [ChromeTransition(None)] is the
    [TypeError] of [None < 0]. *)
Definition __init__ (depth : nat) (kwargs : gmap string value) : result t :=
  let page_state_blob := kwarg kwargs "page_state_blob" VNone in
  page_state ←
    (if truthy page_state_blob then
       match page_state_blob with
       | VBytes b =>
         page_state_pickle ← PickleReader_init b;
         '(ps, _) ← PageState.from_pickle depth page_state_pickle;
         OK (Some ps)
       | _ => Raise TypeError
       end
     else OK None);
  transition ←
    match kwarg kwargs "transition_type" VNone with
    | VInt z => ChromeTransition.__init__ z
    | VBool b => ChromeTransition.__init__ (if b then 1 else 0)
    | _ => Raise TypeError
    end;
  OK (mk (kwarg kwargs "index" VNone)
         (kwarg kwargs "url" VNone)
         (kwarg kwargs "title" VNone)
         page_state
         transition
         (kwarg kwargs "type_mask" VNone)
         (kwarg kwargs "referrer_url" VNone)
         (kwarg kwargs "referrer_policy" VNone)
         (kwarg kwargs "original_request_url" VNone)
         (kwarg kwargs "is_overriding_user_agent" (VBool false))
         (kwarg kwargs "timestamp" VNone)
         (kwarg kwargs "search_terms" VNone)
         (kwarg kwargs "http_status_code" (VInt 0))).

(** The tuple [fields] of [from_pickle], as written in the source. *)
Definition fields : list (string * PickleType) :=
  [ ("index", Int32);
    ("url", String);
    ("title", String16);
    ("page_state_blob", Blob);
    ("transition_type", Int32);
    ("type_mask", Int32);
    ("referrer_url", String);
    ("referrer_policy", Int32);
    ("original_request_url", String);
    ("is_overriding_user_agent", Bool);
    ("timestamp", DateTime);
    ("search_terms", String16);
    ("http_status_code", Int32);
    ("referrer_policy", Int32) ]%string.

Definition from_pickle (depth : nat) (rd : PickleReader)
  : result (t * PickleReader) :=
  '(kwargs, rd) ← deserialise_into_dict rd fields false;
  entry ← __init__ depth kwargs;
  OK (entry, rd).

End NavigationEntry.

(** *** TabState *)

Module TabState.

Record t : Type := mk {
  is_incognito : value;
  current_entry_index : value;
  navigation_entries : list NavigationEntry.t
}.

Fixpoint entries (depth : nat) (count : nat) (rd : PickleReader)
    (acc : list NavigationEntry.t)
  : result (list NavigationEntry.t * PickleReader) :=
  match count with
  | O => OK (acc, rd)
  | S count =>
    '(ok, rd) ← read_int rd;
    if negb ok then Raise (ValueError "")
    else
      '(ok, rd) ← read_pickle rd;
      if negb ok then Raise (ValueError "")
      else
        match current rd with
        | VPickle navigation_pickle =>
          '(entry, _) ← NavigationEntry.from_pickle depth navigation_pickle;
          entries depth count rd (acc ++ [entry])
        | _ => Raise AttributeError
        end
  end.

Definition from_pickle (depth : nat) (rd : PickleReader)
  : result (t * PickleReader) :=
  '(vs, rd) ← iter_deserialise rd [Bool; Int32; Int32] true;
  match vs with
  | [is_incognito; entry_count; current_entry_index] =>
    count ← py_range entry_count;
    '(navigation_entries, rd) ← entries depth count rd [];
    OK (mk is_incognito current_entry_index navigation_entries, rd)
  | _ => Raise (ValueError "")
  end.

End TabState.

(** ** Chrome-SNSS-Parse-OS.py *)

(** What [read_tab_restore_command] returns.  The tab id is what [read_int]
    left in the slot: an integer, or [None] when the read failed. *)
Definition tab_restore : Type := option Z * NavigationEntry.t.

Definition read_tab_restore_command (depth : nat) (stream : BytesIO)
  : result tab_restore :=
  let '(blob, _) := BytesIO_read stream (-1) in
  pickle ← PickleReader_init blob;
  '(_, pickle) ← read_int pickle;
  let tab_id := match current pickle with VInt z => Some z | _ => None end in
  '(entry, _) ← NavigationEntry.from_pickle depth pickle;
  OK (tab_id, entry).

(** What [read_navigation_command] returns: [None] at the end of the file,
    [(True, command)] or [(False, None)] otherwise. *)
Definition read_navigation_command (depth : nat) (stream : BytesIO)
  : result (option (bool * option tab_restore) * BytesIO) :=
  let '(size_bytes, stream) := BytesIO_read stream 2 in
  if bool_decide (length size_bytes < 2)%nat then OK (None, stream)
  else
    command_size ← unpack_unsigned 2 size_bytes;
    let '(command_bytes, stream) := BytesIO_read stream command_size in
    if Z.of_nat (length command_bytes) <? command_size then Raise SsnsError
    else
      let command_buffer := BytesIO_new command_bytes in
      let '(first, command_buffer) := BytesIO_read command_buffer 1 in
      match first with
      | [] => Raise IndexError
      | b :: _ =>
        let command_id := byte_val b in
        if (command_id =? 1) || (command_id =? 6) then
          command ← read_tab_restore_command depth command_buffer;
          OK (Some (true, Some command), stream)
        else OK (Some (false, None), stream)
      end.

(** The generator [iter_navigation_commands], run until it stops: what it
    yielded, in order, and how it ended ([OK] when it returned, [Raise]
    when [read_navigation_command] raised).  [fuel] counts the turns of
    [while True]; [None] only when it is used up. *)
Fixpoint commands_loop (fuel : nat) (depth : nat) (stream : BytesIO)
  : option (list tab_restore * result unit) :=
  match fuel with
  | O => None
  | S fuel =>
    match read_navigation_command depth stream with
    | Raise e => Some ([], Raise e)
    | OK (None, _) => Some ([], OK tt)
    | OK (Some (true, Some command), stream) =>
      '(yielded, ending) ← commands_loop fuel depth stream;
      Some (command :: yielded, ending)
    | OK (Some _, stream) => commands_loop fuel depth stream
    end
  end.

(** Every turn that goes on has read at least the two bytes of a length, so
    one more turn than there are bytes left is enough. *)
Definition iter_navigation_commands (depth : nat) (stream : BytesIO)
  : list tab_restore * result unit :=
  default ([], OK tt)
    (commands_loop (S (length (remaining stream))) depth stream).

Fixpoint flatten_frame_states (frame_state : FrameState.t)
  : list FrameState.t :=
  frame_state ::
    (fix children (l : list FrameState.t) : list FrameState.t :=
       match l with
       | [] => []
       | child :: l => flatten_frame_states child ++ children l
       end)
      (let 'FrameState.mk _ _ _ _ _ _ _ _ _ _ _ _ _ _ child_states :=
         frame_state in child_states).

(** *** The Blink form-state format *)

(** An element of a document-state list: a string, or [None]. *)
Definition token : Type := option pystr.

Definition as_token (v : value) : token :=
  match v with VStr s => Some s | _ => None end.

Definition blink_magic : pystr :=
  [10; 13] ++ str_of_string "?% Blink serialized form state version 9 "
    ++ [10; 13] ++ str_of_string "=&".

(** The dictionaries of the result, in insertion order. *)
Definition fields_dict : Type := list ((token * token) * list token).
Definition form_state : Type := list (token * fields_dict).

Definition setdefault {K V} `{EqDecision K} (k : K) (v : V)
    (d : list (K * V)) : list (K * V) :=
  if bool_decide (k ∈ d.*1) then d else d ++ [(k, v)].

Fixpoint update {K V} `{EqDecision K} (k : K) (f : V -> V)
    (d : list (K * V)) : list (K * V) :=
  match d with
  | [] => []
  | (k', v) :: d =>
    if decide (k = k') then (k', f v) :: d else (k', v) :: update k f d
  end.

Fixpoint getitem {K V} `{EqDecision K} (k : K) (d : list (K * V))
  : option V :=
  match d with
  | [] => None
  | (k', v) :: d => if decide (k = k') then Some v else getitem k d
  end.

(** [reader.__next__()]. *)
Definition next (reader : list token) : result (token * list token) :=
  match reader with
  | [] => Raise StopIteration
  | x :: reader => OK (x, reader)
  end.

Section FormState.

(** The builtin [int] on a string: [None] where it raises [ValueError].
    The message of that error is given up to [base 10]; Python goes on
    with a colon and the [repr] of the string. *)
Variable int_of_str : pystr -> option Z.

Definition int (x : token) : result Z :=
  match x with
  | None => Raise TypeError
  | Some s =>
    match int_of_str s with
    | Some n => OK n
    | None => Raise (ValueError "invalid literal for int() with base 10")
    end
  end.

(** [for k in range(field_count): values.append(reader.__next__())]. *)
Fixpoint read_values (field_count : nat) (reader : list token)
    (values : list token) : result (list token * list token) :=
  match field_count with
  | O => OK (values, reader)
  | S field_count =>
    '(x, reader) ← next reader;
    read_values field_count reader (values ++ [x])
  end.

(** [for j in range(item_count)], on the dictionary of one form. *)
Fixpoint read_items (item_count : nat) (reader : list token)
    (form : fields_dict) : result (fields_dict * list token) :=
  match item_count with
  | O => OK (form, reader)
  | S item_count =>
    '(field_name, reader) ← next reader;
    '(field_type, reader) ← next reader;
    let form := setdefault (field_name, field_type) [] form in
    '(x, reader) ← next reader;
    field_count ← int x;
    '(added, reader) ← read_values (Z.to_nat field_count) reader [];
    read_items item_count reader
      (update (field_name, field_type) (fun values => values ++ added) form)
  end.

(** The [while True] loop; [None] only when [fuel] is used up. *)
Fixpoint read_forms (fuel : nat) (reader : list token) (d : form_state)
  : option (result form_state) :=
  match fuel with
  | O => None
  | S fuel =>
    match reader with
    | [] => Some (OK d)
    | form_key :: reader =>
      let d := setdefault form_key [] d in
      match
        '(x, reader) ← next reader;
        item_count ← int x;
        read_items (Z.to_nat item_count) reader
          (default [] (getitem form_key d))
      with
      | Raise e => Some (Raise e)
      | OK (form, reader) =>
        read_forms fuel reader (update form_key (fun _ => form) d)
      end
    end
  end.

Definition parse_blink_form_state (obj : list value) : result form_state :=
  if bool_decide (length obj < 1)%nat
  then Raise (ValueError "Too short to be Blink serialized form state version")
  else
    let magic := as_token (default VNone (head obj)) in
    if negb (bool_decide (magic = Some blink_magic))
    then Raise (ValueError "Not a Blink serialized form state version 9")
    else
      let reader := as_token <$> drop 1 obj in
      default (Raise StopIteration) (read_forms (S (length reader)) reader []).

End FormState.

(** *** The driver *)

(** What [main] does that can be seen from outside, in the order it does
    it.  The files are not modelled beyond the fact that they are written:
    [OpenTab] is the creation of [tab<id>.csv] with its header row,
    [WritePageState] one (re)writing of the page-state file of a
    navigation, [WriteRow] one row of a tab's table. *)
Inductive event : Type :=
  | PrintInvalidHeader (magic : list byte)
  | PrintInvalidVersion (version : Z)
  | OpenTab (tab_id : option Z)
  | WritePageState (tab_id : option Z) (index : value) (fs : form_state)
  | WriteRow (tab_id : option Z) (entry : NavigationEntry.t)
      (has_frame_state : bool).

(** A run: what was done, and how it ended. *)
Definition run (A : Type) : Type := list event * result A.

Definition run_bind {A B} (m : run A) (k : A -> run B) : run B :=
  match m with
  | (evs, OK a) => let '(evs', r) := k a in (evs ++ evs', r)
  | (evs, Raise e) => (evs, Raise e)
  end.

Definition SNSS : list byte := [Byte.x53; Byte.x4e; Byte.x53; Byte.x53].

Section Main.

Variable int_of_str : pystr -> option Z.

(** [for frame in flatten_frame_states(...)], with [has_frame_state]. *)
Fixpoint frames_loop (frames : list FrameState.t) (tab_id : option Z)
    (index : value) (has_frame_state : bool) : run bool :=
  match frames with
  | [] => ([], OK has_frame_state)
  | frame :: frames =>
    if negb (bool_decide (FrameState.document_state frame = [])) then
      run_bind
        (match
           parse_blink_form_state int_of_str (FrameState.document_state frame)
         with
         | OK fs => ([WritePageState tab_id index fs], OK tt)
         | Raise e => ([], Raise e)
         end)
        (fun _ => frames_loop frames tab_id index true)
    else frames_loop frames tab_id index has_frame_state
  end.

(** One turn of [for tab_id, navigation in iter_navigation_commands(f)];
    [tab_tables] is the set of keys of the dictionary of that name.  A
    page state without a frame tree makes the first [frame] [None], whose
    [document_state] is an [AttributeError]; so is [strftime] on a
    timestamp that is [None]. *)
Definition main_body (tab_tables : list (option Z)) (command : tab_restore)
  : run (list (option Z)) :=
  let '(tab_id, navigation) := command in
  run_bind
    (if negb (bool_decide (tab_id ∈ tab_tables))
     then ([OpenTab tab_id], OK (tab_tables ++ [tab_id]))
     else ([], OK tab_tables))
    (fun tab_tables =>
  run_bind
    (match NavigationEntry.page_state navigation with
     | Some page_state =>
       match PageState.frame_state page_state with
       | Some frame_state =>
         frames_loop (flatten_frame_states frame_state) tab_id
           (NavigationEntry.index navigation) false
       | None => ([], Raise AttributeError)
       end
     | None => ([], OK false)
     end)
    (fun has_frame_state =>
  match NavigationEntry.timestamp navigation with
  | VDateTime _ =>
    ([WriteRow tab_id navigation has_frame_state], OK tab_tables)
  | _ => ([], Raise AttributeError)
  end)).

Fixpoint main_loop (tab_tables : list (option Z))
    (commands : list tab_restore) (ending : result unit) : run unit :=
  match commands with
  | [] => ([], ending)
  | command :: commands =>
    run_bind (main_body tab_tables command)
      (fun tab_tables => main_loop tab_tables commands ending)
  end.

(** [main], from the contents of the input file on: creating the output
    directory and opening the files belong to the environment.  [exit(1)]
    raises [SystemExit]. *)
Definition main (depth : nat) (data : list byte) : run unit :=
  let f := BytesIO_new data in
  let '(header, f) := BytesIO_read f 8 in
  if negb (bool_decide (length header = 8%nat)) then ([], Raise StructError)
  else
    let magic := take 4 header in
    let version := to_signed 32 (le_unsigned (drop 4 header)) in
    if negb (bool_decide (magic = SNSS))
    then ([PrintInvalidHeader magic], Raise (SystemExit 1))
    else
      run_bind
        (if negb (version =? 1)
         then ([PrintInvalidVersion version], OK tt) else ([], OK tt))
        (fun _ =>
           let '(commands, ending) := iter_navigation_commands depth f in
           main_loop [] commands ending).

(** The navigation entries a run wrote a row for. *)
Definition entries (r : run unit) : list (option Z * NavigationEntry.t) :=
  omap (fun ev => match ev with
                  | WriteRow tab_id entry _ => Some (tab_id, entry)
                  | _ => None
                  end) r.1.

End Main.

(** ** Definitions used in the statements *)

(** The length a record declares: its first four bytes, little-endian and
    signed. *)
Definition declared_length (blob : list byte) : Z :=
  to_signed 32 (le_unsigned (take 4 blob)).

(** The reader after a read that moved the cursor by [n] bytes and left
    [v] in the slot. *)
Definition advanced (rd : PickleReader) (n : nat) (v : value) : PickleReader :=
  mkPickleReader (mkBytesIO (buf (_stream rd)) (pos (_stream rd) + n))
    (pickle_length rd) v (blob_length rd).


(** The field list of the specification (section 4.5), in its order. *)
Definition spec_fields : list (string * PickleType) :=
  [ ("index", Int32);
    ("url", String);
    ("title", String16);
    ("page_state_blob", Blob);
    ("transition_type", Int32);
    ("type_mask", Int32);
    ("referrer_url", String);
    ("referrer_policy", Int32);
    ("original_request_url", String);
    ("is_overriding_user_agent", Bool);
    ("timestamp", DateTime);
    ("search_terms", String16);
    ("http_status_code", Int32) ]%string.

(** The fourteenth read: one more int32, stored under [referrer_policy]
    when it succeeds (the key is there already, so a failed read changes
    nothing). *)
Definition second_referrer_policy (d : gmap string value) (rd : PickleReader)
  : result (gmap string value * PickleReader) :=
  match read_int rd with
  | OK (success, rd) =>
    OK (if success then <["referrer_policy"%string := current rd]> d else d, rd)
  | Raise e => Raise e
  end.

(** The record of a tab-restore command: tab id 7, then an entry whose
    thirteenth field is followed by a second referrer policy, 1, the first
    being 0. *)
Definition example_entry : list byte :=
  bytes_of
    [72; 0; 0; 0;  7; 0; 0; 0;  0; 0; 0; 0;  1; 0; 0; 0; 117; 0; 0; 0;
     1; 0; 0; 0; 116; 0; 0; 0;  255; 255; 255; 255;  1; 0; 0; 0;
     0; 0; 0; 0;  255; 255; 255; 255;  0; 0; 0; 0;  255; 255; 255; 255;
     0; 0; 0; 0;  0; 128; 20; 94; 110; 47; 46; 0;  255; 255; 255; 255;
     200; 0; 0; 0;  1; 0; 0; 0].

(** A frame whose document state is the one string ["x"]. *)
Definition example_frame : FrameState.t :=
  FrameState.mk 23 (VStr [97]) VNone (VInt 0, VInt 0) VNone [VStr [120]]
    (VDouble 4607182418800017408) (VInt 1) (VInt 2) (VInt 0)
    (VDouble 0, VDouble 0) (VInt 0) VNone None [].

(** A session file of one tab-restore command (tab 7) whose entry carries a
    version 23 page state with [example_frame] as its root. *)
Definition example_file : list byte :=
  bytes_of
    [83; 78; 83; 83; 1; 0; 0; 0; 201; 0; 6; 196; 0; 0; 0; 7; 0; 0; 0; 0;
     0; 0; 0; 1; 0; 0; 0; 117; 0; 0; 0; 1; 0; 0; 0; 116; 0; 0; 0; 124;
     0; 0; 0; 120; 0; 0; 0; 23; 0; 0; 0; 0; 0; 0; 0; 2; 0; 0; 0; 97; 0;
     0; 0; 255; 255; 255; 255; 0; 0; 0; 0; 0; 0; 0; 0; 255; 255; 255;
     255; 1; 0; 0; 0; 2; 0; 0; 0; 120; 0; 0; 0; 8; 0; 0; 0; 0; 0; 0; 0;
     0; 0; 240; 63; 1; 0; 0; 0; 0; 0; 0; 0; 2; 0; 0; 0; 0; 0; 0; 0; 0;
     0; 0; 0; 8; 0; 0; 0; 0; 0; 0; 0; 0; 0; 0; 0; 8; 0; 0; 0; 0; 0; 0;
     0; 0; 0; 0; 0; 0; 0; 0; 0; 0; 0; 0; 0; 0; 0; 0; 0; 255; 255; 255;
     255; 0; 0; 0; 0; 1; 0; 0; 0; 0; 0; 0; 0; 255; 255; 255; 255; 0; 0;
     0; 0; 255; 255; 255; 255; 0; 0; 0; 0; 0; 128; 20; 94; 110; 47; 46;
     0; 255; 255; 255; 255; 200; 0; 0; 0; 1; 0; 0; 0].

(** The bytes [_read_raw] skips after a blob of [len] bytes. *)
Definition alignment (len : Z) : Z :=
  if negb (len mod 4 =? 0) then 4 - len mod 4 else 0.

(** [rd'] is [rd] after some reading: the same buffer and the same record
    attributes, the cursor not before where it was. *)
Definition moved_forward (rd rd' : PickleReader) : Prop :=
  buf (_stream rd') = buf (_stream rd)
  /\ (pos (_stream rd) <= pos (_stream rd'))%nat
  /\ pickle_length rd' = pickle_length rd
  /\ blob_length rd' = blob_length rd.

(** What a read that returned left behind: the reader moved on by some
    number of bytes, and when the read reported failure the slot was
    cleared and nothing is left to read. *)
Definition read_shape (rd : PickleReader) (r : bool * PickleReader) : Prop :=
  exists (n : nat) (v : value),
    r.2 = advanced rd n v
    /\ (r.1 = false -> v = VNone /\ (length (remaining (_stream rd)) <= n)%nat).

(** A frame whose document state is the marker alone, with [example_frame]
    as its one child. *)
Definition example_parent_frame : FrameState.t :=
  FrameState.mk 23 (VStr [97]) VNone (VInt 0, VInt 0) VNone [VStr blink_magic]
    (VDouble 4607182418800017408) (VInt 1) (VInt 2) (VInt 0)
    (VDouble 0, VDouble 0) (VInt 0) VNone None [example_frame].

(** * Properties *)

(** ** Streams and scalar reads *)

Lemma length_remaining_read (s : BytesIO) (size : Z) :
  length (remaining (BytesIO_read s size).2)
  = (length (remaining s) - length (BytesIO_read s size).1)%nat.
Proof.
  unfold BytesIO_read, remaining; simpl.
  rewrite !length_drop. apply Nat.sub_add_distr.
Qed.

Lemma remaining_new (blob : list byte) : remaining (BytesIO_new blob) = blob.
Proof. done. Qed.

Lemma BytesIO_read_enough (s : BytesIO) (size : Z) :
  0 <= size -> (Z.to_nat size <= length (remaining s))%nat ->
  BytesIO_read s size
  = (take (Z.to_nat size) (remaining s),
     mkBytesIO (buf s) (pos s + Z.to_nat size)).
Proof.
  intros Hpos Hle. unfold BytesIO_read.
  destruct (Z.ltb_spec size 0) as [?|_]; [lia|].
  rewrite length_take. do 2 f_equal. lia.
Qed.

Lemma BytesIO_read_short (s : BytesIO) (size : Z) :
  0 <= size -> (length (remaining s) <= Z.to_nat size)%nat ->
  BytesIO_read s size
  = (remaining s, mkBytesIO (buf s) (pos s + length (remaining s))).
Proof.
  intros Hpos Hle. unfold BytesIO_read.
  destruct (Z.ltb_spec size 0) as [?|_]; [lia|].
  rewrite take_ge by done. done.
Qed.

Lemma unpack_unsigned_ok (size : nat) (x : list byte) :
  length x = size -> unpack_unsigned size x = OK (le_unsigned x).
Proof. intros H. unfold unpack_unsigned. by rewrite decide_True. Qed.

Lemma unpack_unsigned_error (size : nat) (x : list byte) :
  length x ≠ size -> unpack_unsigned size x = Raise StructError.
Proof. intros H. unfold unpack_unsigned. by rewrite decide_False. Qed.

Lemma unpack_signed_ok (size : nat) (x : list byte) :
  length x = size ->
  unpack_signed size x = OK (to_signed (8 * Z.of_nat size) (le_unsigned x)).
Proof. intros H. unfold unpack_signed. by rewrite unpack_unsigned_ok. Qed.

Lemma unpack_signed_error (size : nat) (x : list byte) :
  length x ≠ size -> unpack_signed size x = Raise StructError.
Proof. intros H. unfold unpack_signed. by rewrite unpack_unsigned_error. Qed.

(** ** The record framing *)

Lemma PickleReader_init_short (blob : list byte) :
  (length blob < 4)%nat -> PickleReader_init blob = Raise EOFError.
Proof.
  intros Hlen. unfold PickleReader_init, _read_int32.
  rewrite BytesIO_read_short by (rewrite ?remaining_new; lia).
  rewrite remaining_new, unpack_signed_error by lia. done.
Qed.

Lemma PickleReader_init_long (blob : list byte) :
  (4 <= length blob)%nat ->
  PickleReader_init blob
  = if negb (Z.of_nat (length blob) - 4 =? declared_length blob)
    then Raise (ValueError "Declared pickle length not equal to blob length")
    else OK (mkPickleReader (mkBytesIO blob 4) (declared_length blob) VNone
               (length blob)).
Proof.
  intros Hlen. unfold PickleReader_init, _read_int32.
  rewrite BytesIO_read_enough by (rewrite ?remaining_new; lia).
  rewrite remaining_new, unpack_signed_ok by (rewrite length_take; lia).
  done.
Qed.

(** C4. Constructing a reader from a buffer succeeds exactly when the buffer
    holds a 4-byte length prefix whose (little-endian, signed) value is the
    buffer length minus 4, and the reader then stands just after the
    prefix.  Every other buffer fails: with the framing [ValueError] when
    the prefix is there and differs, be it larger or smaller, and with
    [EOFError] when the buffer is too short to hold a prefix at all. *)
Theorem PickleReader_init_framing (blob : list byte) :
  ((exists rd, PickleReader_init blob = OK rd)
   <-> (4 <= length blob)%nat
       /\ declared_length blob = Z.of_nat (length blob) - 4)
  /\ ((4 <= length blob)%nat ->
      declared_length blob = Z.of_nat (length blob) - 4 ->
      PickleReader_init blob
      = OK (mkPickleReader (mkBytesIO blob 4) (Z.of_nat (length blob) - 4)
              VNone (length blob)))
  /\ ((4 <= length blob)%nat ->
      declared_length blob ≠ Z.of_nat (length blob) - 4 ->
      PickleReader_init blob
      = Raise (ValueError "Declared pickle length not equal to blob length"))
  /\ ((length blob < 4)%nat -> PickleReader_init blob = Raise EOFError).
Proof.
  assert (Hok : (4 <= length blob)%nat ->
                declared_length blob = Z.of_nat (length blob) - 4 ->
                PickleReader_init blob
                = OK (mkPickleReader (mkBytesIO blob 4)
                        (Z.of_nat (length blob) - 4) VNone (length blob))).
  { intros Hlen Heq. rewrite PickleReader_init_long by done.
    rewrite Heq, Z.eqb_refl. done. }
  assert (Hbad : (4 <= length blob)%nat ->
                 declared_length blob ≠ Z.of_nat (length blob) - 4 ->
                 PickleReader_init blob
                 = Raise (ValueError
                            "Declared pickle length not equal to blob length")).
  { intros Hlen Hne. rewrite PickleReader_init_long by done.
    destruct (Z.eqb_spec (Z.of_nat (length blob) - 4) (declared_length blob));
      [congruence|done]. }
  split; [|auto using PickleReader_init_short].
  split.
  - intros [rd Hrd].
    destruct (le_lt_dec 4 (length blob)) as [Hlen|Hlen].
    + split; [done|].
      destruct (decide (declared_length blob = Z.of_nat (length blob) - 4));
        [done|].
      rewrite Hbad in Hrd by done. discriminate.
    + rewrite PickleReader_init_short in Hrd by done. discriminate.
  - intros [Hlen Heq]. eauto.
Qed.

Lemma PickleReader_init_framing_witness :
  PickleReader_init (bytes_of [2; 0; 0; 0; 1; 0])
  = OK (mkPickleReader (mkBytesIO (bytes_of [2; 0; 0; 0; 1; 0]) 4) 2 VNone 6).
Proof.
  apply (proj1 (proj2 (PickleReader_init_framing
                         (bytes_of [2; 0; 0; 0; 1; 0])))).
  - vm_compute. lia.
  - reflexivity.
Defined.

(** ** Scalar reads at the end of a record *)

Lemma BytesIO_read_nonneg (s : BytesIO) (size : Z) :
  0 <= size ->
  BytesIO_read s size
  = (take (Z.to_nat size) (remaining s),
     mkBytesIO (buf s) (pos s + Z.to_nat size `min` length (remaining s))).
Proof.
  intros Hpos. unfold BytesIO_read.
  destruct (Z.ltb_spec size 0) as [?|_]; [lia|].
  by rewrite length_take.
Qed.

Lemma try_struct_16 (unpack : nat -> list byte -> result Z)
    (conv : Z -> value) (rd : PickleReader) :
  try_struct
    (fun s => let '(x, s) := BytesIO_read s 4 in (unpack 2%nat (take 2 x), s))
    conv rd
  = let rem := remaining (_stream rd) in
    match unpack 2%nat (take 2 rem) with
    | OK x => OK (true, advanced rd (4 `min` length rem) (conv x))
    | Raise StructError => OK (false, advanced rd (4 `min` length rem) VNone)
    | Raise e => Raise e
    end.
Proof.
  unfold try_struct. rewrite BytesIO_read_nonneg by lia.
  rewrite take_take. change (2 `min` Z.to_nat 4)%nat with 2%nat.
  change (Z.to_nat 4) with 4%nat. done.
Qed.

Lemma try_struct_32 (unpack : nat -> list byte -> result Z)
    (conv : Z -> value) (rd : PickleReader) :
  try_struct
    (fun s => let '(x, s) := BytesIO_read s 4 in (unpack 4%nat x, s)) conv rd
  = let rem := remaining (_stream rd) in
    match unpack 4%nat (take 4 rem) with
    | OK x => OK (true, advanced rd (4 `min` length rem) (conv x))
    | Raise StructError => OK (false, advanced rd (4 `min` length rem) VNone)
    | Raise e => Raise e
    end.
Proof.
  unfold try_struct. rewrite BytesIO_read_nonneg by lia.
  change (Z.to_nat 4) with 4%nat. done.
Qed.

(** C10, as amended.  With at least 4 bytes left in the stream, [read_short]
    and [read_ushort] succeed, move the cursor by exactly 4 bytes and take
    their value (signed, unsigned) from the first 2 of them.  With only 2 or
    3 bytes left they still succeed, on the first 2 bytes, and the cursor
    stops at the end of the stream, 2 or 3 bytes on; with fewer than 2 they
    fail, clear the slot and leave the cursor at the end. *)
Theorem read_16bit_step (rd : PickleReader) :
  let rem := remaining (_stream rd) in
  ((4 <= length rem)%nat ->
   read_short rd
   = OK (true, advanced rd 4 (VInt (to_signed 16 (le_unsigned (take 2 rem)))))
   /\ read_ushort rd
      = OK (true, advanced rd 4 (VInt (le_unsigned (take 2 rem)))))
  /\ ((2 <= length rem < 4)%nat ->
      read_short rd
      = OK (true, advanced rd (length rem)
                    (VInt (to_signed 16 (le_unsigned (take 2 rem)))))
      /\ read_ushort rd
         = OK (true, advanced rd (length rem)
                       (VInt (le_unsigned (take 2 rem)))))
  /\ ((length rem < 2)%nat ->
      read_short rd = OK (false, advanced rd (length rem) VNone)
      /\ read_ushort rd = OK (false, advanced rd (length rem) VNone)).
Proof.
  intros rem. unfold read_short, read_ushort, _read_int16, _read_uint16.
  rewrite !try_struct_16. fold rem. cbv zeta.
  split; [|split]; intros Hlen; split.
  all: try (rewrite unpack_signed_ok by (rewrite length_take; lia)).
  all: try (rewrite unpack_unsigned_ok by (rewrite length_take; lia)).
  all: try (rewrite unpack_signed_error by (rewrite length_take; lia)).
  all: try (rewrite unpack_unsigned_error by (rewrite length_take; lia)).
  all: repeat f_equal; lia.
Qed.

Lemma read_16bit_step_witness :
  read_short
    (mkPickleReader (mkBytesIO (bytes_of [4; 0; 0; 0; 254; 255; 9; 9]) 4)
       4 VNone 8)
  = OK (true,
        mkPickleReader
          (mkBytesIO (bytes_of [4; 0; 0; 0; 254; 255; 9; 9]) 8) 4 (VInt (-2)) 8).
Proof.
  refine (proj1 (proj1 (read_16bit_step
    (mkPickleReader (mkBytesIO (bytes_of [4; 0; 0; 0; 254; 255; 9; 9]) 4)
       4 VNone 8)) _)).
  cbn. lia.
Defined.

(** The claim as it was stated fails at the tail of a record: two bytes
    after the prefix, and [read_short] succeeds having consumed two. *)
Lemma read_16bit_counterexample :
  exists rd rd',
    PickleReader_init (bytes_of [2; 0; 0; 0; 1; 0]) = OK rd
    /\ read_short rd = OK (true, rd')
    /\ current rd' = VInt 1
    /\ (pos (_stream rd') - pos (_stream rd))%nat = 2%nat
    /\ (pos (_stream rd') - pos (_stream rd))%nat ≠ 4%nat.
Proof.
  eexists _, _. split; [reflexivity|]. split; [reflexivity|].
  split; [reflexivity|]. split; [reflexivity|]. vm_compute. discriminate.
Qed.

(** ** The HTTP body at the end of a record *)

Lemma read_bool_exhausted (rd : PickleReader) :
  (length (remaining (_stream rd)) < 4)%nat ->
  read_bool rd
  = OK (false, advanced rd (length (remaining (_stream rd))) VNone).
Proof.
  intros Hlen. unfold read_bool, _read_int32. rewrite try_struct_32.
  cbv zeta. rewrite unpack_signed_error by (rewrite length_take; lia).
  repeat f_equal. lia.
Qed.

Lemma HttpBody_from_pickle_falsy (rd rd' : PickleReader) (ok : bool)
    (version : Z) :
  read_bool rd = OK (ok, rd') -> truthy (current rd') = false ->
  HttpBody.from_pickle rd version = OK (None, rd').
Proof.
  intros Hread Hfalsy. unfold HttpBody.from_pickle.
  rewrite Hread. simpl. by rewrite Hfalsy.
Qed.

(** C8. When fewer than four bytes are left where the presence flag of an
    HTTP body should be, [read_bool] fails and clears the slot, and
    [HttpBody.from_pickle] returns [None] without raising, leaving the
    reader as the failed read left it.  The result is the [None] that a
    presence flag read as false gives. *)
Theorem HttpBody_from_pickle_exhausted (rd : PickleReader) (version : Z) :
  (length (remaining (_stream rd)) < 4)%nat ->
  (exists rd',
     read_bool rd = OK (false, rd')
     /\ current rd' = VNone
     /\ HttpBody.from_pickle rd version = OK (None, rd'))
  /\ (forall rd0 rd0',
        read_bool rd0 = OK (true, rd0') -> current rd0' = VBool false ->
        HttpBody.from_pickle rd0 version = OK (None, rd0')).
Proof.
  intros Hlen. split.
  - eexists. split; [by apply read_bool_exhausted|]. split; [done|].
    eapply HttpBody_from_pickle_falsy; [by apply read_bool_exhausted|done].
  - intros rd0 rd0' Hread Hcur.
    eapply HttpBody_from_pickle_falsy; [done|]. by rewrite Hcur.
Qed.

Lemma HttpBody_from_pickle_exhausted_witness :
  HttpBody.from_pickle
    (mkPickleReader (mkBytesIO (bytes_of [2; 0; 0; 0; 1; 0]) 4) 2 VNone 6) 23
  = OK (None,
        mkPickleReader (mkBytesIO (bytes_of [2; 0; 0; 0; 1; 0]) 6) 2 VNone 6).
Proof.
  destruct (proj1 (HttpBody_from_pickle_exhausted
    (mkPickleReader (mkBytesIO (bytes_of [2; 0; 0; 0; 1; 0]) 4) 2 VNone 6) 23
    ltac:(cbn; lia))) as (rd' & Hread & _ & Hbody).
  rewrite Hbody. f_equal. f_equal.
  injection Hread as <-. reflexivity.
Defined.

(** ** The transition bitfield *)

(** C1, as amended.  The raw value [-1] is reinterpreted as [0xFFFFFFFF];
    its low byte under the core mask is [0xFF], which is not a key of the
    table of core kinds, so the constructor raises [KeyError] and no
    transition is built.  A negative value with the same high bits whose low
    byte is a key of the table, [k - 256] for a core kind [k], is decoded
    without an error: to the core kind of [k] and all nine qualifiers. *)
Theorem ChromeTransition_negative :
  Z.land (-1 + 0x80000000 * 2) ChromeTransition._core_mask = 0xff
  /\ Z.land (-1 + 0x80000000 * 2) ChromeTransition._qualifier_mask = 0xffffff00
  /\ ChromeTransition.__init__ (-1) = Raise KeyError
  /\ (forall k name,
        (k, name) ∈ ChromeTransition._core_transitions ->
        ChromeTransition.__init__ (k - 256)
        = OK (ChromeTransition.mk (k - 256) name
                (ChromeTransition._qualifiers.*2))).
Proof.
  split; [reflexivity|]. split; [reflexivity|]. split; [reflexivity|].
  intros k name Hin. unfold ChromeTransition._core_transitions in Hin.
  repeat (apply elem_of_cons in Hin as [Hin|Hin];
          [injection Hin as -> ->; reflexivity|]).
  by apply elem_of_nil in Hin.
Qed.

Lemma ChromeTransition_negative_witness :
  ChromeTransition.__init__ (-255)
  = OK (ChromeTransition.mk (-255) "Typed"
          ["Blocked"; "ForwardBack"; "FromAddressBar"; "HomePage"; "FromApi";
           "ChainStart"; "ChainEnd"; "ClientRedirect"; "ServerRedirect"]%string).
Proof.
  apply (proj2 (proj2 (proj2 ChromeTransition_negative)) 1 "Typed"%string).
  apply elem_of_cons; right. apply elem_of_cons; left. reflexivity.
Defined.

(** The claim as it was stated: [-1] does not decode. *)
Lemma ChromeTransition_minus_one_counterexample :
  ChromeTransition.__init__ (-1) = Raise KeyError
  /\ ~ (exists t, ChromeTransition.__init__ (-1) = OK t).
Proof.
  split; [reflexivity|]. intros [t Ht]. discriminate Ht.
Qed.

(** ** The command stream *)

Lemma bind_OK {A B} (a : A) (f : A -> result B) : OK a ≫= f = f a.
Proof. done. Qed.

Lemma bind_Raise {A B} (e : exn) (f : A -> result B) : Raise e ≫= f = Raise e.
Proof. done. Qed.

Lemma byte_val_nonneg (b : byte) : 0 <= byte_val b.
Proof. unfold byte_val. lia. Qed.

Lemma le_unsigned_nonneg (bs : list byte) : 0 <= le_unsigned bs.
Proof.
  induction bs as [|b bs IH]; simpl; [lia|].
  pose proof (byte_val_nonneg b). lia.
Qed.

Lemma remaining_advanced (s : BytesIO) (n : nat) :
  remaining (mkBytesIO (buf s) (pos s + n)) = drop n (remaining s).
Proof. unfold remaining; simpl. by rewrite drop_drop. Qed.

(** [read_navigation_command] in terms of the bytes that are left. *)
Lemma read_navigation_command_eq (depth : nat) (stream : BytesIO) :
  read_navigation_command depth stream
  = let rem := remaining stream in
    if bool_decide (length rem < 2)%nat
    then OK (None, mkBytesIO (buf stream) (pos stream + length rem))
    else
      let command_size := le_unsigned (take 2 rem) in
      let command_bytes := take (Z.to_nat command_size) (drop 2 rem) in
      let stream' :=
        mkBytesIO (buf stream) (pos stream + (2 + length command_bytes)) in
      if Z.of_nat (length command_bytes) <? command_size then Raise SsnsError
      else
        match command_bytes with
        | [] => Raise IndexError
        | b :: _ =>
          if (byte_val b =? 1) || (byte_val b =? 6) then
            command ← read_tab_restore_command depth
                         (mkBytesIO command_bytes 1);
            OK (Some (true, Some command), stream')
          else OK (Some (false, None), stream')
        end.
Proof.
  unfold read_navigation_command.
  rewrite BytesIO_read_nonneg by lia. change (Z.to_nat 2) with 2%nat.
  cbv zeta. rewrite length_take.
  case_bool_decide as Hshort.
  - rewrite bool_decide_true by lia. do 3 f_equal. lia.
  - rewrite bool_decide_false by lia.
    replace (2 `min` length (remaining stream))%nat with 2%nat by lia.
    rewrite unpack_unsigned_ok by (rewrite length_take; lia).
    rewrite bind_OK.
    pose proof (le_unsigned_nonneg (take 2 (remaining stream))) as Hsize.
    rewrite BytesIO_read_nonneg by done.
    rewrite remaining_advanced. cbn [buf pos].
    rewrite <- length_take.
    set (command_bytes :=
           take (Z.to_nat (le_unsigned (take 2 (remaining stream))))
             (drop 2 (remaining stream))).
    destruct (_ <? _); [done|].
    replace (pos stream + 2 + length command_bytes)%nat
      with (pos stream + (2 + length command_bytes))%nat by lia.
    unfold BytesIO_read, BytesIO_new, remaining. cbn [buf pos].
    by destruct command_bytes as [|b rest].
Qed.

Lemma read_navigation_command_progress (depth : nat) (stream stream' : BytesIO)
    (x : bool * option tab_restore) :
  read_navigation_command depth stream = OK (Some x, stream') ->
  (length (remaining stream') < length (remaining stream))%nat.
Proof.
  rewrite read_navigation_command_eq. cbv zeta.
  case_bool_decide as Hshort; [discriminate|].
  destruct (_ <? _); [discriminate|].
  destruct (take _ _) as [|b rest] eqn:Hbytes; [discriminate|].
  assert (Hrem : (length (remaining
             (mkBytesIO (buf stream)
                (pos stream + (2 + length (b :: rest)))))
           < length (remaining stream))%nat).
  { rewrite remaining_advanced, length_drop. lia. }
  destruct (_ || _).
  - destruct (read_tab_restore_command _ _); simpl; [|discriminate].
    intros [= _ <-]. done.
  - intros [= _ <-]. done.
Qed.

Lemma commands_loop_fuel (depth : nat) (n m : nat) (stream : BytesIO) :
  (length (remaining stream) < n)%nat ->
  (length (remaining stream) < m)%nat ->
  is_Some (commands_loop n depth stream)
  /\ commands_loop n depth stream = commands_loop m depth stream.
Proof.
  revert m stream. induction n as [|n IH]; intros m stream Hn Hm; [lia|].
  destruct m as [|m]; [lia|]. simpl.
  destruct (read_navigation_command depth stream)
    as [[[[yielding command]|] stream']|e] eqn:Hread; [|by eauto..].
  apply read_navigation_command_progress in Hread.
  destruct (IH m stream' ltac:(lia) ltac:(lia)) as [[r Hr] Heq].
  rewrite <- Heq, Hr. destruct r as [yielded ending].
  destruct yielding, command; simpl; eauto.
Qed.

(** The generator, one turn at a time: the equation of its [while True]. *)
Lemma iter_navigation_commands_unfold (depth : nat) (stream : BytesIO) :
  iter_navigation_commands depth stream
  = match read_navigation_command depth stream with
    | Raise e => ([], Raise e)
    | OK (None, _) => ([], OK tt)
    | OK (Some (true, Some command), stream') =>
      let '(yielded, ending) := iter_navigation_commands depth stream' in
      (command :: yielded, ending)
    | OK (Some _, stream') => iter_navigation_commands depth stream'
    end.
Proof.
  unfold iter_navigation_commands at 1. simpl.
  destruct (read_navigation_command depth stream)
    as [[[[yielding command]|] stream']|e] eqn:Hread; [|done..].
  apply read_navigation_command_progress in Hread.
  unfold iter_navigation_commands.
  destruct (commands_loop_fuel depth (length (remaining stream))
              (S (length (remaining stream'))) stream'
              ltac:(lia) ltac:(lia)) as [[[ys e] Hr] Heq].
  rewrite <- Heq, Hr. destruct yielding, command; done.
Qed.

(** C7. At a position where a command length is due, fewer than two bytes
    left make [read_navigation_command] return [None] and the generator stop
    there without an error; two bytes of length followed by fewer payload
    bytes than they declare make it raise [SsnsError], which is how the
    generator then ends. *)
Theorem command_stream_end (depth : nat) (stream : BytesIO) :
  let rem := remaining stream in
  ((length rem < 2)%nat ->
   (exists stream', read_navigation_command depth stream = OK (None, stream'))
   /\ iter_navigation_commands depth stream = ([], OK tt))
  /\ ((2 <= length rem)%nat ->
      Z.of_nat (length (drop 2 rem)) < le_unsigned (take 2 rem) ->
      read_navigation_command depth stream = Raise SsnsError
      /\ iter_navigation_commands depth stream = ([], Raise SsnsError)).
Proof.
  intros rem. split.
  - intros Hshort.
    assert (Hread : read_navigation_command depth stream
                    = OK (None, mkBytesIO (buf stream)
                                  (pos stream + length rem))).
    { rewrite read_navigation_command_eq. cbv zeta.
      by rewrite bool_decide_true. }
    split; [eauto|]. rewrite iter_navigation_commands_unfold. by rewrite Hread.
  - intros Hlen Htrunc.
    assert (Hread : read_navigation_command depth stream = Raise SsnsError).
    { rewrite read_navigation_command_eq. cbv zeta. fold rem.
      rewrite bool_decide_false by lia.
      destruct (Z.ltb_spec
                  (Z.of_nat (length (take (Z.to_nat (le_unsigned (take 2 rem)))
                                       (drop 2 rem))))
                  (le_unsigned (take 2 rem))) as [|Hge]; [done|].
      rewrite length_take in Hge. lia. }
    split; [done|]. rewrite iter_navigation_commands_unfold. by rewrite Hread.
Qed.

Lemma command_stream_end_witness :
  iter_navigation_commands 0 (mkBytesIO (bytes_of [3; 0; 5; 5]) 0)
  = ([], Raise SsnsError).
Proof.
  refine (proj2 (proj2 (command_stream_end 0
                          (mkBytesIO (bytes_of [3; 0; 5; 5]) 0)) _ _)).
  - cbn. lia.
  - vm_compute. reflexivity.
Defined.

(** C9. A command whose two length bytes are zero has an empty payload:
    reading its identifier raises [IndexError], and so ends the generator;
    the command is neither skipped nor taken as the end of the stream. *)
Theorem command_of_length_zero (depth : nat) (stream : BytesIO) :
  take 2 (remaining stream) = [Byte.x00; Byte.x00] ->
  read_navigation_command depth stream = Raise IndexError
  /\ iter_navigation_commands depth stream = ([], Raise IndexError).
Proof.
  intros Hzero.
  assert (Hread : read_navigation_command depth stream = Raise IndexError).
  { rewrite read_navigation_command_eq. cbv zeta.
    assert (length (take 2 (remaining stream)) = 2%nat) as Hlen
      by by rewrite Hzero.
    rewrite length_take in Hlen.
    rewrite bool_decide_false by lia. by rewrite Hzero. }
  split; [done|]. rewrite iter_navigation_commands_unfold. by rewrite Hread.
Qed.

Lemma command_of_length_zero_witness :
  read_navigation_command 0 (mkBytesIO (bytes_of [0; 0; 1; 0; 5]) 0)
  = Raise IndexError.
Proof.
  refine (proj1 (command_of_length_zero 0
                   (mkBytesIO (bytes_of [0; 0; 1; 0; 5]) 0) _)).
  reflexivity.
Defined.

(** ** The container header *)

(** C6. A buffer whose first four bytes are not [SNSS] is aborted on: with
    [exit(1)] after the report of the bad magic when the eight bytes of a
    header are there, with [struct.error] when they are not; no row is
    written in either case.  A buffer with the magic and a version other
    than 1 is only reported on: the run is the run of the command stream
    that follows the header, as it is for version 1, after the one report
    of the version. *)
Theorem main_header (int_of_str : pystr -> option Z) (depth : nat)
    (data : list byte) :
  (take 4 data ≠ SNSS ->
   entries (main int_of_str depth data) = []
   /\ ((8 <= length data)%nat ->
       main int_of_str depth data
       = ([PrintInvalidHeader (take 4 data)], Raise (SystemExit 1)))
   /\ ((length data < 8)%nat ->
       main int_of_str depth data = ([], Raise StructError)))
  /\ (take 4 data = SNSS -> (8 <= length data)%nat ->
      let version := to_signed 32 (le_unsigned (take 4 (drop 4 data))) in
      let '(commands, ending) :=
        iter_navigation_commands depth (mkBytesIO data 8) in
      let '(evs, r) := main_loop int_of_str [] commands ending in
      main int_of_str depth data
      = if version =? 1 then (evs, r)
        else (PrintInvalidVersion version :: evs, r)).
Proof.
  assert (Hshort : (length data < 8)%nat ->
                   main int_of_str depth data = ([], Raise StructError)).
  { intros Hlen. unfold main.
    rewrite BytesIO_read_nonneg by lia. rewrite remaining_new.
    rewrite bool_decide_false; [done|]. rewrite length_take. lia. }
  assert (Hlong : (8 <= length data)%nat ->
    main int_of_str depth data
    = if negb (bool_decide (take 4 data = SNSS))
      then ([PrintInvalidHeader (take 4 data)], Raise (SystemExit 1))
      else
        run_bind
          (if negb (to_signed 32 (le_unsigned (take 4 (drop 4 data))) =? 1)
           then ([PrintInvalidVersion
                    (to_signed 32 (le_unsigned (take 4 (drop 4 data))))],
                 OK tt)
           else ([], OK tt))
          (fun _ =>
             let '(commands, ending) :=
               iter_navigation_commands depth (mkBytesIO data 8) in
             main_loop int_of_str [] commands ending)).
  { intros Hlen. unfold main.
    rewrite BytesIO_read_nonneg by lia. rewrite remaining_new.
    change (Z.to_nat 8) with 8%nat.
    rewrite bool_decide_true by (rewrite length_take; lia).
    rewrite take_take. change (4 `min` 8)%nat with 4%nat.
    rewrite (take_drop_commute data 4 4). change (4 + 4)%nat with 8%nat.
    replace (8 `min` length data)%nat with 8%nat by lia.
    done. }
  split.
  - intros Hmagic. split; [|split; [|done]].
    + destruct (le_lt_dec 8 (length data)) as [Hlen|Hlen].
      * rewrite Hlong by done. by rewrite bool_decide_false.
      * by rewrite Hshort.
    + intros Hlen. rewrite Hlong by done. by rewrite bool_decide_false.
  - intros Hmagic Hlen. cbv zeta. rewrite Hlong by done.
    rewrite bool_decide_true by done.
    destruct (iter_navigation_commands _ _) as [commands ending].
    destruct (main_loop _ _ _ _) as [evs r] eqn:Hloop.
    by destruct (_ =? 1).
Qed.

Lemma main_header_witness :
  main (fun _ => None) 0 (bytes_of [83; 78; 83; 83; 2; 0; 0; 0])
  = ([PrintInvalidVersion 2], OK tt).
Proof.
  exact (proj2 (main_header (fun _ => None) 0
                  (bytes_of [83; 78; 83; 83; 2; 0; 0; 0]))
           eq_refl ltac:(cbn; lia)).
Defined.

(** ** The version of a page state *)



(** ** The fields of a navigation entry *)

Lemma deserialise_fields_app (fields1 fields2 : list (string * PickleType))
    (raise_on_missing : bool) (rd : PickleReader) (d : gmap string value) :
  deserialise_fields (fields1 ++ fields2) raise_on_missing rd d
  = '(d, rd) ← deserialise_fields fields1 raise_on_missing rd d;
    deserialise_fields fields2 raise_on_missing rd d.
Proof.
  revert rd d. induction fields1 as [|[field field_type] fields1 IH];
    intros rd d; [done|].
  simpl. destruct (_func_lookup field_type rd) as [[success rd']|e]; [|done].
  rewrite !bind_OK. cbv beta iota.
  destruct (negb success && raise_on_missing); [done|].
  apply IH.
Qed.

(** Every field read so far is a key of the dictionary, whether its read
    succeeded or not. *)
Lemma deserialise_fields_keys (fields : list (string * PickleType))
    (raise_on_missing : bool) (rd rd' : PickleReader)
    (d d' : gmap string value) (name : string) :
  deserialise_fields fields raise_on_missing rd d = OK (d', rd') ->
  name ∈ fields.*1 \/ is_Some (d !! name) -> is_Some (d' !! name).
Proof.
  revert rd d. induction fields as [|[field field_type] fields IH];
    intros rd d Hrun Hname.
  - injection Hrun as <- <-. destruct Hname as [Hin|Hd]; [|done].
    by apply elem_of_nil in Hin.
  - simpl in Hrun.
    destruct (_func_lookup field_type rd) as [[success rd1]|e]; [|done].
    rewrite bind_OK in Hrun. cbv beta iota in Hrun.
    destruct (negb success && raise_on_missing); [done|].
    eapply IH; [exact Hrun|].
    destruct Hname as [Hin|Hd].
    + rewrite fmap_cons in Hin. apply elem_of_cons in Hin as [->|Hin];
        [|by left].
      right. simpl. case_bool_decide as Hkey; simpl.
      * destruct success; [by rewrite lookup_insert_eq|done].
      * by rewrite lookup_insert_eq.
    + right. destruct (_ || _); [|done].
      destruct (decide (field = name)) as [->|Hne].
      * by rewrite lookup_insert_eq.
      * by rewrite lookup_insert_ne.
Qed.

(** C2, as amended.  The field list [NavigationEntry.from_pickle] hands to
    [deserialise_into_dict] is the thirteen fields of the specification, in
    their order, followed by a fourteenth: a second [referrer_policy], an
    int32.  Decoding therefore reads the thirteen fields and then one more
    int32; when that last read succeeds its value replaces the
    [referrer_policy] read before, and when it fails the earlier value is
    kept. *)
Theorem NavigationEntry_fields_read (depth : nat) (rd : PickleReader) :
  NavigationEntry.fields = spec_fields ++ [("referrer_policy"%string, Int32)]
  /\ deserialise_into_dict rd NavigationEntry.fields false
     = ('(d, rd) ← deserialise_into_dict rd spec_fields false;
        second_referrer_policy d rd)
  /\ NavigationEntry.from_pickle depth rd
     = ('(d, rd) ← deserialise_into_dict rd spec_fields false;
        '(d, rd) ← second_referrer_policy d rd;
        entry ← NavigationEntry.__init__ depth d;
        OK (entry, rd)).
Proof.
  assert (Hdict : deserialise_into_dict rd NavigationEntry.fields false
     = ('(d, rd) ← deserialise_into_dict rd spec_fields false;
        second_referrer_policy d rd)).
  { unfold deserialise_into_dict.
    change NavigationEntry.fields
      with (spec_fields ++ [("referrer_policy"%string, Int32)]).
    rewrite deserialise_fields_app.
    destruct (deserialise_fields spec_fields false rd ∅) as [[d rd1]|e]
      eqn:Hrun; [|done].
    rewrite !bind_OK. cbv beta iota.
    assert (Hkey : is_Some (d !! "referrer_policy"%string)).
    { eapply deserialise_fields_keys; [exact Hrun|]. left.
      apply list_elem_of_In. cbn. auto 20. }
    unfold second_referrer_policy. simpl.
    destruct (read_int rd1) as [[success rd2]|e]; [|done].
    rewrite !bind_OK. cbv beta iota. rewrite andb_false_r.
    rewrite bool_decide_true by done. by destruct success. }
  split; [done|]. split; [done|].
  unfold NavigationEntry.from_pickle. rewrite Hdict.
  destruct (deserialise_into_dict rd spec_fields false) as [[d rd1]|e];
    [|done].
  rewrite !bind_OK. cbv beta iota.
  destruct (second_referrer_policy d rd1) as [[d2 rd2]|e]; done.
Qed.

(** The claim as it was stated: on [example_entry], past the tab id, the
    source's field list reads four bytes more than the thirteen fields and
    returns another referrer policy. *)
Lemma NavigationEntry_fields_counterexample :
  NavigationEntry.fields ≠ spec_fields
  /\ (let rd := mkPickleReader (mkBytesIO example_entry 8) 72 (VInt 7) 76 in
      (exists d rd',
         deserialise_into_dict rd NavigationEntry.fields false = OK (d, rd')
         /\ d !! "referrer_policy"%string = Some (VInt 1)
         /\ pos (_stream rd') = 76%nat)
      /\ (exists d rd',
            deserialise_into_dict rd spec_fields false = OK (d, rd')
            /\ d !! "referrer_policy"%string = Some (VInt 0)
            /\ pos (_stream rd') = 72%nat)).
Proof.
  split; [discriminate|]. cbv zeta. split.
  - eexists _, _. split; [vm_compute; reflexivity|].
    split; vm_compute; reflexivity.
  - eexists _, _. split; [vm_compute; reflexivity|].
    split; vm_compute; reflexivity.
Qed.

(** ** Document states that are not form states *)

Lemma as_token_magic (v : value) :
  as_token v = Some blink_magic <-> v = VStr blink_magic.
Proof.
  split; [|by intros ->]. destruct v; simpl; try discriminate.
  by intros [= ->].
Qed.

Lemma parse_blink_form_state_not_magic (int_of_str : pystr -> option Z)
    (first : value) (rest : list value) :
  first ≠ VStr blink_magic ->
  parse_blink_form_state int_of_str (first :: rest)
  = Raise (ValueError "Not a Blink serialized form state version 9").
Proof.
  intros Hne. unfold parse_blink_form_state.
  rewrite bool_decide_false by (simpl; lia). simpl head. simpl default.
  rewrite bool_decide_false; [done|]. by rewrite as_token_magic.
Qed.

Lemma frames_loop_app (int_of_str : pystr -> option Z)
    (frames1 frames2 : list FrameState.t) (tab_id : option Z) (index : value)
    (has_frame_state : bool) :
  frames_loop int_of_str (frames1 ++ frames2) tab_id index has_frame_state
  = run_bind (frames_loop int_of_str frames1 tab_id index has_frame_state)
      (fun has_frame_state =>
         frames_loop int_of_str frames2 tab_id index has_frame_state).
Proof.
  revert has_frame_state.
  induction frames1 as [|frame frames1 IH]; intros has_frame_state.
  - simpl. by destruct (frames_loop _ _ _ _ _).
  - cbn [app frames_loop]. destruct (negb _); [|apply IH].
    destruct (parse_blink_form_state _ _) as [fs|e]; [|done].
    unfold run_bind at 1 3. rewrite IH.
    destruct (frames_loop int_of_str frames1 tab_id index true)
      as [evs1 [has|e]]; simpl; [|done].
    by destruct (frames_loop int_of_str frames2 tab_id index has).
Qed.

(** The frames loop writes page-state files and nothing else. *)
Lemma frames_loop_events (int_of_str : pystr -> option Z)
    (frames : list FrameState.t) (tab_id : option Z) (index : value)
    (has_frame_state : bool) (ev : event) :
  ev ∈ (frames_loop int_of_str frames tab_id index has_frame_state).1 ->
  exists fs, ev = WritePageState tab_id index fs.
Proof.
  revert has_frame_state.
  induction frames as [|frame frames IH]; intros has_frame_state.
  - simpl. by intros ?%elem_of_nil.
  - cbn [frames_loop]. destruct (negb _); [|apply IH].
    destruct (parse_blink_form_state _ _) as [fs|e]; simpl.
    + destruct (frames_loop _ frames _ _ true) as [evs r] eqn:Hrest.
      simpl. intros [->|Hin]%elem_of_cons; [by eexists|].
      apply (IH true). by rewrite Hrest.
    + by intros ?%elem_of_nil.
Qed.

(** C3, as amended.  The marker has 47 characters.  For a document-state
    list that is not empty and whose first element is not the marker,
    [parse_blink_form_state] raises the [ValueError] of its second check.
    The loop of [main] over the frames of a navigation, root first, does
    not catch it: the frames before such a frame are dealt with as they are
    without it (a page-state file is written for each whose document state
    decodes), and when they raise nothing the run ends at this frame in
    that [ValueError]; if one of them raises, the run ends there.  Either
    way the run ends in an error and what it has written for the
    navigation are page-state files only, never its row.  When the frame is
    the root, or the first one of the loop, nothing is written for the
    navigation before the error.  Only a frame whose document-state list is
    empty is passed over without the decoder being called. *)
Theorem form_state_not_magic (int_of_str : pystr -> option Z)
    (frame : FrameState.t) (frames : list FrameState.t)
    (first : value) (rest : list value) :
  FrameState.document_state frame = first :: rest ->
  first ≠ VStr blink_magic ->
  length blink_magic = 47%nat
  /\ parse_blink_form_state int_of_str (FrameState.document_state frame)
     = Raise (ValueError "Not a Blink serialized form state version 9")
  /\ (forall tab_id index has_frame_state,
        frames_loop int_of_str (frame :: frames) tab_id index has_frame_state
        = ([], Raise (ValueError "Not a Blink serialized form state version 9")))
  /\ (forall tab_tables tab_id navigation page_state,
        NavigationEntry.page_state navigation = Some page_state ->
        PageState.frame_state page_state = Some frame ->
        main_body int_of_str tab_tables (tab_id, navigation)
        = (if bool_decide (tab_id ∈ tab_tables) then [] else [OpenTab tab_id],
           Raise (ValueError "Not a Blink serialized form state version 9")))
  /\ (forall skipped tab_id index has_frame_state,
        FrameState.document_state skipped = [] ->
        frames_loop int_of_str (skipped :: frames) tab_id index has_frame_state
        = frames_loop int_of_str frames tab_id index has_frame_state)
  /\ (forall before tab_id index has_frame_state,
        frames_loop int_of_str (before ++ frame :: frames) tab_id index
          has_frame_state
        = (let '(evs, r) :=
             frames_loop int_of_str before tab_id index has_frame_state in
           (evs,
            match r with
            | OK _ =>
              Raise (ValueError "Not a Blink serialized form state version 9")
            | Raise e => Raise e
            end)))
  /\ (forall tab_tables tab_id navigation page_state root before,
        NavigationEntry.page_state navigation = Some page_state ->
        PageState.frame_state page_state = Some root ->
        flatten_frame_states root = before ++ frame :: frames ->
        main_body int_of_str tab_tables (tab_id, navigation)
        = (let '(evs, r) :=
             frames_loop int_of_str before tab_id
               (NavigationEntry.index navigation) false in
           ((if bool_decide (tab_id ∈ tab_tables) then []
             else [OpenTab tab_id]) ++ evs,
            match r with
            | OK _ =>
              Raise (ValueError "Not a Blink serialized form state version 9")
            | Raise e => Raise e
            end)))
  /\ (forall before tab_id index has_frame_state ev,
        ev ∈ (frames_loop int_of_str before tab_id index has_frame_state).1 ->
        exists fs, ev = WritePageState tab_id index fs).
Proof.
  intros Hdoc Hne.
  assert (Hparse :
    parse_blink_form_state int_of_str (FrameState.document_state frame)
    = Raise (ValueError "Not a Blink serialized form state version 9")).
  { rewrite Hdoc. by apply parse_blink_form_state_not_magic. }
  assert (Hloop : forall frames' tab_id index has_frame_state,
    frames_loop int_of_str (frame :: frames') tab_id index has_frame_state
    = ([], Raise (ValueError "Not a Blink serialized form state version 9"))).
  { intros frames' tab_id index has_frame_state. simpl.
    rewrite Hparse. rewrite Hdoc. done. }
  assert (Hmiddle : forall before tab_id index has_frame_state,
    frames_loop int_of_str (before ++ frame :: frames) tab_id index
      has_frame_state
    = (let '(evs, r) :=
         frames_loop int_of_str before tab_id index has_frame_state in
       (evs,
        match r with
        | OK _ =>
          Raise (ValueError "Not a Blink serialized form state version 9")
        | Raise e => Raise e
        end))).
  { intros before tab_id index has_frame_state. rewrite frames_loop_app.
    destruct (frames_loop int_of_str before tab_id index has_frame_state)
      as [evs [has|e]]; unfold run_bind; [|done].
    by rewrite Hloop, app_nil_r. }
  split; [reflexivity|]. split; [done|]. split; [by auto|].
  split; [|split; [|split; [done|split]]].
  - intros tab_tables tab_id navigation page_state Hpage Hframe.
    unfold main_body. rewrite Hpage, Hframe.
    destruct frame. simpl flatten_frame_states. rewrite Hloop.
    by case_bool_decide.
  - intros skipped tab_id index has_frame_state Hempty. simpl.
    by rewrite Hempty.
  - intros tab_tables tab_id navigation page_state root before Hpage Hroot
      Hflat.
    unfold main_body. rewrite Hpage, Hroot, Hflat, Hmiddle.
    destruct (frames_loop int_of_str before tab_id
                (NavigationEntry.index navigation) false) as [evs [has|e]];
      by case_bool_decide.
  - intros before tab_id index has_frame_state ev.
    apply frames_loop_events.
Qed.

Lemma form_state_not_magic_witness :
  frames_loop (fun _ => None) [example_frame] (Some 7) (VInt 0) false
  = ([], Raise (ValueError "Not a Blink serialized form state version 9"))
  /\ frames_loop (fun _ => None) (flatten_frame_states example_parent_frame)
       (Some 7) (VInt 0) false
     = ([WritePageState (Some 7) (VInt 0) []],
        Raise (ValueError "Not a Blink serialized form state version 9")).
Proof.
  split.
  - refine (proj1 (proj2 (proj2 (form_state_not_magic (fun _ => None)
              example_frame [] (VStr [120]) [] eq_refl _)))
              (Some 7) (VInt 0) false).
    discriminate.
  - refine (proj1 (proj2 (proj2 (proj2 (proj2 (proj2 (form_state_not_magic
              (fun _ => None) example_frame [] (VStr [120]) [] eq_refl _))))))
              [example_parent_frame] (Some 7) (VInt 0) false).
    discriminate.
Defined.

(** The claim as it was stated: on [example_file] the document state ["x"]
    is not left undecoded; the run ends in the [ValueError] of the decoder,
    after the tab's file was opened and before its row is written. *)
Lemma form_state_counterexample :
  VStr [120] ≠ VStr blink_magic
  /\ parse_blink_form_state (fun _ => None) [VStr [120]]
     = Raise (ValueError "Not a Blink serialized form state version 9")
  /\ main (fun _ => None) 10 example_file
     = ([OpenTab (Some 7)],
        Raise (ValueError "Not a Blink serialized form state version 9"))
  /\ entries (main (fun _ => None) 10 example_file) = [].
Proof.
  split; [discriminate|]. split; [reflexivity|].
  split; vm_compute; reflexivity.
Qed.

(** ** The loops of the form-state decoder end *)

Lemma next_length (reader reader' : list token) (x : token) :
  next reader = OK (x, reader') -> length reader = S (length reader').
Proof. destruct reader; [discriminate|]. by intros [= _ <-]. Qed.

Lemma read_values_length (field_count : nat) (reader reader' : list token)
    (values values' : list token) :
  read_values field_count reader values = OK (values', reader') ->
  (length reader' <= length reader)%nat.
Proof.
  revert reader values. induction field_count as [|n IH];
    intros reader values; simpl.
  - by intros [= _ <-].
  - destruct (next reader) as [[x reader1]|e] eqn:Hnext; [|discriminate].
    rewrite bind_OK. cbv beta iota. intros Hrun.
    apply next_length in Hnext. apply IH in Hrun. lia.
Qed.

Lemma read_items_length (int_of_str : pystr -> option Z) (item_count : nat)
    (reader reader' : list token) (form form' : fields_dict) :
  read_items int_of_str item_count reader form = OK (form', reader') ->
  (length reader' <= length reader)%nat.
Proof.
  revert reader form. induction item_count as [|n IH];
    intros reader form; simpl.
  - by intros [= _ <-].
  - destruct (next reader) as [[field_name reader1]|e] eqn:Hn1;
      [|discriminate].
    rewrite bind_OK. cbv beta iota.
    destruct (next reader1) as [[field_type reader2]|e] eqn:Hn2;
      [|discriminate].
    rewrite bind_OK. cbv beta iota.
    destruct (next reader2) as [[x reader3]|e] eqn:Hn3; [|discriminate].
    rewrite bind_OK. cbv beta iota.
    destruct (int int_of_str x) as [field_count|e]; [|discriminate].
    rewrite bind_OK.
    destruct (read_values _ reader3 []) as [[added reader4]|e] eqn:Hvalues;
      [|discriminate].
    rewrite bind_OK. cbv beta iota. intros Hrun.
    apply next_length in Hn1, Hn2, Hn3.
    apply read_values_length in Hvalues. apply IH in Hrun. lia.
Qed.

(** With one unit of fuel more than there are tokens, [read_forms] never
    runs out: [parse_blink_form_state] returns a dictionary or raises. *)
Lemma read_forms_total (int_of_str : pystr -> option Z) (fuel : nat)
    (reader : list token) (d : form_state) :
  (length reader < fuel)%nat ->
  is_Some (read_forms int_of_str fuel reader d).
Proof.
  revert reader d. induction fuel as [|fuel IH]; intros reader d Hfuel;
    [lia|].
  simpl. destruct reader as [|form_key reader]; [by eexists|].
  destruct (next reader) as [[x reader1]|e] eqn:Hnext; [|by eexists].
  rewrite bind_OK. cbv beta iota.
  destruct (int int_of_str x) as [item_count|e]; [|by eexists].
  rewrite bind_OK.
  destruct (read_items _ _ reader1 _) as [[form reader2]|e] eqn:Hitems;
    [|by eexists].
  apply next_length in Hnext. apply read_items_length in Hitems.
  apply IH. simpl in Hfuel. lia.
Qed.

(** Likewise the generator of commands never runs out of turns. *)
Lemma commands_loop_total (depth : nat) (stream : BytesIO) :
  is_Some (commands_loop (S (length (remaining stream))) depth stream).
Proof.
  apply (commands_loop_fuel depth _ (S (length (remaining stream)))); lia.
Qed.

(** * Further properties of the record reader *)

(** ** The reads in terms of the bytes that are left *)

Lemma remaining_after (rd : PickleReader) (n : nat) (v : value) :
  remaining (_stream (advanced rd n v)) = drop n (remaining (_stream rd)).
Proof. unfold advanced. cbn [_stream]. apply remaining_advanced. Qed.

Lemma moved_forward_advanced (rd : PickleReader) (n : nat) (v : value) :
  moved_forward rd (advanced rd n v).
Proof. unfold moved_forward, advanced; simpl. repeat split; lia. Qed.

Lemma byte_val_bound (b : byte) : byte_val b < 256.
Proof.
  unfold byte_val. pose proof (Byte.to_N_bounded b) as H. lia.
Qed.

Lemma le_unsigned_bound (bs : list byte) :
  le_unsigned bs < 256 ^ Z.of_nat (length bs).
Proof.
  induction bs as [|b bs IH]; [simpl; lia|].
  cbn [le_unsigned length]. rewrite Nat2Z.inj_succ, Z.pow_succ_r by lia.
  pose proof (byte_val_bound b). pose proof (byte_val_nonneg b). lia.
Qed.

Lemma try_struct_64 (unpack : nat -> list byte -> result Z)
    (conv : Z -> value) (rd : PickleReader) :
  try_struct
    (fun s => let '(x, s) := BytesIO_read s 8 in (unpack 8%nat x, s)) conv rd
  = let rem := remaining (_stream rd) in
    match unpack 8%nat (take 8 rem) with
    | OK x => OK (true, advanced rd (8 `min` length rem) (conv x))
    | Raise StructError => OK (false, advanced rd (8 `min` length rem) VNone)
    | Raise e => Raise e
    end.
Proof.
  unfold try_struct. rewrite BytesIO_read_nonneg by lia.
  change (Z.to_nat 8) with 8%nat. done.
Qed.

(** A scalar read of [size] bytes whose value comes from the first [k]. *)
Lemma scalar_read_cases (size k : nat) (signed : bool) (conv : Z -> value)
    (rd : PickleReader) (read : PickleReader -> result (bool * PickleReader)) :
  (k <= size)%nat ->
  read rd
  = (let rem := remaining (_stream rd) in
     match (if signed then unpack_signed else unpack_unsigned) k
             (take k rem) with
     | OK x => OK (true, advanced rd (size `min` length rem) (conv x))
     | Raise StructError =>
       OK (false, advanced rd (size `min` length rem) VNone)
     | Raise e => Raise e
     end) ->
  let rem := remaining (_stream rd) in
  ((k <= length rem)%nat ->
   read rd
   = OK (true, advanced rd (size `min` length rem)
                 (conv (if signed
                        then to_signed (8 * Z.of_nat k) (le_unsigned (take k rem))
                        else le_unsigned (take k rem)))))
  /\ ((length rem < k)%nat ->
      read rd = OK (false, advanced rd (length rem) VNone)).
Proof.
  intros Hk -> rem. subst rem. cbv zeta. split; intros Hlen.
  - destruct signed.
    + by rewrite unpack_signed_ok by (rewrite length_take; lia).
    + by rewrite unpack_unsigned_ok by (rewrite length_take; lia).
  - replace (size `min` length (remaining (_stream rd)))%nat
      with (length (remaining (_stream rd))) by lia.
    destruct signed.
    + by rewrite unpack_signed_error by (rewrite length_take; lia).
    + by rewrite unpack_unsigned_error by (rewrite length_take; lia).
Qed.

Lemma read_int_cases (rd : PickleReader) :
  let rem := remaining (_stream rd) in
  ((4 <= length rem)%nat ->
   read_int rd
   = OK (true, advanced rd 4 (VInt (to_signed 32 (le_unsigned (take 4 rem))))))
  /\ ((length rem < 4)%nat ->
      read_int rd = OK (false, advanced rd (length rem) VNone)).
Proof.
  intros rem. subst rem.
  destruct (scalar_read_cases 4 4 true VInt rd read_int ltac:(lia)
              (try_struct_32 unpack_signed VInt rd)) as [Hok Hfail].
  split; [|done]. intros Hlen. rewrite Hok by done.
  by replace (4 `min` length (remaining (_stream rd)))%nat with 4%nat by lia.
Qed.

Lemma read_uint_cases (rd : PickleReader) :
  let rem := remaining (_stream rd) in
  ((4 <= length rem)%nat ->
   read_uint rd = OK (true, advanced rd 4 (VInt (le_unsigned (take 4 rem)))))
  /\ ((length rem < 4)%nat ->
      read_uint rd = OK (false, advanced rd (length rem) VNone)).
Proof.
  intros rem. subst rem.
  destruct (scalar_read_cases 4 4 false VInt rd read_uint ltac:(lia)
              (try_struct_32 unpack_unsigned VInt rd)) as [Hok Hfail].
  split; [|done]. intros Hlen. rewrite Hok by done.
  by replace (4 `min` length (remaining (_stream rd)))%nat with 4%nat by lia.
Qed.

(** X1. With at least four bytes left, [read_int] and [read_uint] both
    succeed and move the cursor by exactly four bytes.  They read the same
    four bytes: the unsigned value is below [2^32], and the signed value is
    the same number when that is below [2^31] and [2^32] less otherwise, so
    it lies between [-2^31] and [2^31 - 1]. *)
Theorem read_32bit_values (rd : PickleReader) :
  (4 <= length (remaining (_stream rd)))%nat ->
  exists i u,
    read_int rd = OK (true, advanced rd 4 (VInt i))
    /\ read_uint rd = OK (true, advanced rd 4 (VInt u))
    /\ u = le_unsigned (take 4 (remaining (_stream rd)))
    /\ 0 <= u < 2 ^ 32
    /\ i = (if u <? 2 ^ 31 then u else u - 2 ^ 32)
    /\ - 2 ^ 31 <= i < 2 ^ 31.
Proof.
  intros Hlen.
  exists (to_signed 32 (le_unsigned (take 4 (remaining (_stream rd))))),
         (le_unsigned (take 4 (remaining (_stream rd)))).
  split; [by apply read_int_cases|]. split; [by apply read_uint_cases|].
  split; [done|].
  pose proof (le_unsigned_nonneg (take 4 (remaining (_stream rd)))) as Hlo.
  pose proof (le_unsigned_bound (take 4 (remaining (_stream rd)))) as Hhi.
  rewrite length_take in Hhi.
  replace (4 `min` length (remaining (_stream rd)))%nat with 4%nat in Hhi
    by lia.
  change (256 ^ Z.of_nat 4) with (2 ^ 32) in Hhi.
  split; [lia|]. unfold to_signed. change (32 - 1) with 31.
  split; [done|]. destruct (Z.ltb_spec (le_unsigned (take 4 (remaining (_stream rd)))) (2 ^ 31)); lia.
Qed.

Lemma read_32bit_values_witness :
  exists i u,
    read_int (mkPickleReader (mkBytesIO (bytes_of [4; 0; 0; 0; 254; 255; 255; 255]) 4)
                4 VNone 8)
    = OK (true, advanced
                  (mkPickleReader
                     (mkBytesIO (bytes_of [4; 0; 0; 0; 254; 255; 255; 255]) 4)
                     4 VNone 8) 4 (VInt i))
    /\ i = -2 /\ u = 4294967294.
Proof.
  destruct (read_32bit_values
    (mkPickleReader (mkBytesIO (bytes_of [4; 0; 0; 0; 254; 255; 255; 255]) 4)
       4 VNone 8) ltac:(cbn; lia)) as (i & u & Hi & _ & Hu & _ & Hiu & _).
  exists i, u. split; [exact Hi|].
  assert (u = 4294967294) as Hu' by (rewrite Hu; reflexivity).
  split; [|exact Hu']. rewrite Hiu, Hu'. reflexivity.
Defined.

Lemma read_blob_eq (is_doubled_length : bool) (rd : PickleReader) :
  read_blob is_doubled_length rd
  = let rem := remaining (_stream rd) in
    if bool_decide (length rem < 4)%nat
    then OK (false, advanced rd (length rem) VNone)
    else
      let len := declared_length rem in
      if len =? -1 then OK (true, advanced rd 4 VNone)
      else
        let n := len * (if is_doubled_length then 2 else 1) in
        let blob := if n <? 0 then drop 4 rem
                    else take (Z.to_nat n) (drop 4 rem) in
        if Z.of_nat (length blob) <? n
        then OK (false, advanced rd (length rem) VNone)
        else OK (true, advanced rd (4 + length blob + Z.to_nat (alignment n))
                         (VBytes blob)).
Proof.
  unfold read_blob, _read_int32.
  rewrite BytesIO_read_nonneg by lia. change (Z.to_nat 4) with 4%nat.
  cbv zeta. case_bool_decide as Hshort.
  - rewrite unpack_signed_error by (rewrite length_take; lia).
    by replace (4 `min` length (remaining (_stream rd)))%nat
      with (length (remaining (_stream rd))) by lia.
  - rewrite unpack_signed_ok by (rewrite length_take; lia).
    change (8 * Z.of_nat 4) with 32. fold (declared_length (remaining (_stream rd))).
    replace (4 `min` length (remaining (_stream rd)))%nat with 4%nat by lia.
    destruct (_ =? -1); [done|].
    unfold _read_raw, BytesIO_read. rewrite remaining_advanced.
    cbn [buf pos]. fold (alignment (declared_length (remaining (_stream rd))
                                    * (if is_doubled_length then 2 else 1))).
    set (n := declared_length (remaining (_stream rd))
              * (if is_doubled_length then 2 else 1)).
    set (blob := if n <? 0 then drop 4 (remaining (_stream rd))
                 else take (Z.to_nat n) (drop 4 (remaining (_stream rd)))).
    destruct (Z.ltb_spec (Z.of_nat (length blob)) n) as [Hlt|Hge].
    + unfold advanced, set_current, set_stream. cbn [buf pos _stream
        pickle_length blob_length]. do 4 f_equal.
      assert (length blob = length (drop 4 (remaining (_stream rd)))) as ->.
      { subst blob. destruct (Z.ltb_spec n 0); [done|].
        rewrite length_take in *. lia. }
      rewrite length_drop. lia.
    + unfold advanced, set_current, set_stream, BytesIO_seek_cur.
      cbn [buf pos _stream pickle_length blob_length]. do 4 f_equal. lia.
Qed.

Lemma alignment_spec (n : Z) :
  0 <= alignment n < 4 /\ (n + alignment n) mod 4 = 0.
Proof.
  unfold alignment. pose proof (Z.mod_pos_bound n 4 ltac:(lia)) as Hmod.
  destruct (Z.eqb_spec (n mod 4) 0) as [Hz|Hnz]; simpl.
  - split; [lia|]. by rewrite Z.add_0_r.
  - split; [lia|].
    rewrite (Z.div_mod n 4) at 1 by lia.
    replace (4 * (n / 4) + n mod 4 + (4 - n mod 4)) with ((n / 4 + 1) * 4)
      by lia.
    apply Z.mod_mul. lia.
Qed.

(** X2. A blob read whose declared length is not negative and is covered by
    the bytes that follow succeeds with exactly the declared bytes (twice
    the declared count in the doubled mode) and then skips up to three
    bytes of padding, so that prefix, content and padding together are a
    multiple of four: a cursor on a 4-byte boundary stays on one. *)
Theorem read_blob_aligned (is_doubled_length : bool) (rd : PickleReader) :
  let rem := remaining (_stream rd) in
  let n := declared_length rem * (if is_doubled_length then 2 else 1) in
  (4 <= length rem)%nat -> 0 <= declared_length rem ->
  n <= Z.of_nat (length (drop 4 rem)) ->
  exists padding : nat,
    read_blob is_doubled_length rd
    = OK (true, advanced rd (4 + Z.to_nat n + padding)
                  (VBytes (take (Z.to_nat n) (drop 4 rem))))
    /\ Z.of_nat (length (take (Z.to_nat n) (drop 4 rem))) = n
    /\ (padding < 4)%nat
    /\ ((4 + Z.to_nat n + padding) mod 4 = 0)%nat
    /\ ((pos (_stream rd)) mod 4 = 0 ->
        (pos (_stream (advanced rd (4 + Z.to_nat n + padding) VNone))) mod 4
        = 0)%nat.
Proof.
  intros rem n Hlen Hpos Hcover. subst rem.
  set (rem := remaining (_stream rd)) in *.
  assert (0 <= n) as Hn by (subst n; destruct is_doubled_length; lia).
  destruct (alignment_spec n) as [Hpad Hmod].
  exists (Z.to_nat (alignment n)).
  assert (length (take (Z.to_nat n) (drop 4 rem)) = Z.to_nat n) as Htake
    by (rewrite length_take; lia).
  assert (((4 + Z.to_nat n + Z.to_nat (alignment n)) mod 4)%nat = 0%nat)
    as Hmod'.
  { apply Nat2Z.inj. rewrite Nat2Z.inj_mod. rewrite !Nat2Z.inj_add.
    rewrite !Z2Nat.id by lia. change (Z.of_nat 4) with 4. change (Z.of_nat 0) with 0.
    replace (4 + n + alignment n) with (n + alignment n + 1 * 4) by lia.
    by rewrite Z.mod_add by lia. }
  split; [|split; [lia|split; [lia|split; [done|]]]].
  - rewrite read_blob_eq. cbv zeta. fold rem.
    rewrite bool_decide_false by lia.
    destruct (Z.eqb_spec (declared_length rem) (-1)) as [|_]; [lia|].
    fold n. destruct (Z.ltb_spec n 0) as [|_]; [lia|].
    rewrite Htake.
    destruct (Z.ltb_spec (Z.of_nat (Z.to_nat n)) n) as [|_]; [lia|]. done.
  - intros Hrd. unfold advanced. cbn [_stream pos].
    rewrite Nat.Div0.add_mod, Hrd, Hmod'. done.
Qed.

Lemma read_blob_aligned_witness :
  read_blob true
    (mkPickleReader (mkBytesIO (bytes_of [8; 0; 0; 0; 1; 0; 0; 0; 116; 0; 0; 0])
                       4) 8 VNone 12)
  = OK (true,
        mkPickleReader
          (mkBytesIO (bytes_of [8; 0; 0; 0; 1; 0; 0; 0; 116; 0; 0; 0]) 12)
          8 (VBytes (bytes_of [116; 0])) 12).
Proof.
  destruct (read_blob_aligned true
    (mkPickleReader (mkBytesIO (bytes_of [8; 0; 0; 0; 1; 0; 0; 0; 116; 0; 0; 0])
                       4) 8 VNone 12)
    ltac:(cbn; lia) ltac:(vm_compute; discriminate)
    ltac:(vm_compute; discriminate)) as (padding & Hread & _ & Hpad & Hmod & _).
  rewrite Hread. clear Hread.
  assert (padding = 2%nat) as ->.
  { change (Z.to_nat _) with 2%nat in Hmod.
    destruct padding as [|[|[|[|?]]]]; try discriminate Hmod; [done|lia]. }
  reflexivity.
Defined.

(** X3. The length [-1] marks an absent blob: the read succeeds, clears the
    slot and consumes the four bytes of the length only, in both modes.  No
    other negative length is refused: in the byte-count mode a declared
    length below [-1] makes the read succeed with all the bytes that are
    left, after which the stream is exhausted. *)
Theorem read_blob_negative (rd : PickleReader) :
  let rem := remaining (_stream rd) in
  (4 <= length rem)%nat -> declared_length rem < 0 ->
  (declared_length rem = -1 ->
   forall is_doubled_length,
     read_blob is_doubled_length rd = OK (true, advanced rd 4 VNone))
  /\ (declared_length rem < -1 ->
      exists rd',
        read_blob false rd = OK (true, rd')
        /\ current rd' = VBytes (drop 4 rem)
        /\ remaining (_stream rd') = []).
Proof.
  intros rem Hlen Hneg. subst rem. set (rem := remaining (_stream rd)) in *.
  split.
  - intros Habsent is_doubled_length. rewrite read_blob_eq. cbv zeta.
    fold rem. rewrite bool_decide_false by lia. by rewrite Habsent.
  - intros Hbelow. eexists. rewrite read_blob_eq. cbv zeta. fold rem.
    rewrite bool_decide_false by lia.
    destruct (Z.eqb_spec (declared_length rem) (-1)) as [|_]; [lia|].
    rewrite Z.mul_1_r.
    destruct (Z.ltb_spec (declared_length rem) 0) as [_|]; [|lia].
    destruct (Z.ltb_spec (Z.of_nat (length (drop 4 rem)))
                (declared_length rem)) as [|_]; [lia|].
    split; [done|]. split; [done|].
    rewrite remaining_after. fold rem. apply drop_ge.
    rewrite length_drop. lia.
Qed.

Lemma read_blob_negative_witness :
  exists rd',
    read_blob false
      (mkPickleReader
         (mkBytesIO (bytes_of [7; 0; 0; 0; 254; 255; 255; 255; 1; 2; 3]) 4)
         7 VNone 11)
    = OK (true, rd')
    /\ current rd' = VBytes (bytes_of [1; 2; 3]).
Proof.
  destruct (proj2 (read_blob_negative
    (mkPickleReader
       (mkBytesIO (bytes_of [7; 0; 0; 0; 254; 255; 255; 255; 1; 2; 3]) 4)
       7 VNone 11)
    ltac:(cbn; lia) ltac:(vm_compute; reflexivity))
    ltac:(vm_compute; reflexivity)) as (rd' & Hread & Hcur & _).
  exists rd'. split; [exact Hread|]. rewrite Hcur. reflexivity.
Defined.

Lemma read_pickle_eq (rd : PickleReader) :
  read_pickle rd
  = let rem := remaining (_stream rd) in
    if bool_decide (length rem < 4)%nat
    then OK (false, advanced rd (length rem) VNone)
    else
      let len := declared_length rem in
      let pickle_buff := if len <? 0 then drop 4 rem
                         else take (Z.to_nat len) (drop 4 rem) in
      if negb (Z.of_nat (length pickle_buff) =? len)
      then OK (false, advanced rd (length rem) VNone)
      else OK (true,
               advanced rd (4 + Z.to_nat len)
                 (VPickle (mkPickleReader
                             (mkBytesIO (take 4 rem ++ pickle_buff) 4)
                             len VNone (4 + Z.to_nat len)))).
Proof.
  unfold read_pickle. rewrite BytesIO_read_nonneg by lia.
  change (Z.to_nat 4) with 4%nat. cbv zeta. rewrite length_take.
  set (rem := remaining (_stream rd)).
  destruct (decide (length rem < 4)%nat) as [Hshort|Hshort].
  - rewrite bool_decide_false by lia. rewrite bool_decide_true by done.
    cbn [negb].
    by replace (4 `min` length rem)%nat with (length rem) by lia.
  - rewrite bool_decide_true by lia. rewrite bool_decide_false by done.
    cbn [negb].
    rewrite unpack_signed_ok by (rewrite length_take; lia).
    rewrite bind_OK. change (8 * Z.of_nat 4) with 32.
    fold (declared_length rem).
    replace (4 `min` length rem)%nat with 4%nat by lia.
    unfold BytesIO_read. rewrite remaining_advanced. cbn [buf pos].
    fold rem.
    set (pickle_buff := if declared_length rem <? 0 then drop 4 rem
                        else take (Z.to_nat (declared_length rem))
                               (drop 4 rem)).
    destruct (Z.eqb_spec (Z.of_nat (length pickle_buff)) (declared_length rem))
      as [Heq|Hne]; cbn [negb].
    + assert (length (take 4 rem) = 4%nat) as Hprefix
        by (rewrite length_take; lia).
      assert (declared_length (take 4 rem ++ pickle_buff)
              = declared_length rem) as Hdecl.
      { unfold declared_length.
        by rewrite (take_app_length' (take 4 rem) pickle_buff 4). }
      rewrite PickleReader_init_long by (rewrite length_app; lia).
      rewrite Hdecl, length_app, Hprefix.
      destruct (Z.eqb_spec (Z.of_nat (4 + length pickle_buff) - 4)
                  (declared_length rem)) as [_|]; [|lia].
      cbn [negb]. rewrite bind_OK.
      unfold advanced, set_current, set_stream.
      cbn [buf pos _stream pickle_length blob_length].
      replace (Z.to_nat (declared_length rem)) with (length pickle_buff)
        by lia.
      by rewrite Nat.add_assoc.
    + unfold advanced, set_current, set_stream.
      cbn [buf pos _stream pickle_length blob_length]. do 4 f_equal.
      assert (length pickle_buff = length (drop 4 rem)) as ->.
      { subst pickle_buff. destruct (Z.ltb_spec (declared_length rem) 0);
          [done|]. rewrite length_take in *. lia. }
      rewrite length_drop. lia.
Qed.

(** X4. [read_pickle] never raises.  It succeeds exactly when four length
    bytes are followed by at least as many bytes as they declare (a
    negative length never is); the nested reader then holds the length
    bytes and the content, satisfies the framing check of its constructor
    and stands just after its prefix, and the outer cursor has moved by four
    plus the declared length, with no padding.  In every other case it
    returns false, clears the slot and leaves the stream exhausted. *)
Theorem read_pickle_nested (rd : PickleReader) :
  let rem := remaining (_stream rd) in
  let len := declared_length rem in
  ((4 <= length rem)%nat /\ 0 <= len <= Z.of_nat (length (drop 4 rem)) ->
   let blob := take 4 rem ++ take (Z.to_nat len) (drop 4 rem) in
   PickleReader_init blob
   = OK (mkPickleReader (mkBytesIO blob 4) len VNone (4 + Z.to_nat len))
   /\ read_pickle rd
      = OK (true,
            advanced rd (4 + Z.to_nat len)
              (VPickle (mkPickleReader (mkBytesIO blob 4) len VNone
                          (4 + Z.to_nat len)))))
  /\ (~ ((4 <= length rem)%nat /\ 0 <= len <= Z.of_nat (length (drop 4 rem))) ->
      read_pickle rd = OK (false, advanced rd (length rem) VNone)
      /\ remaining (_stream (advanced rd (length rem) VNone)) = []).
Proof.
  intros rem len. subst rem len. set (rem := remaining (_stream rd)).
  split.
  - intros [Hlen Hcover]. cbv zeta.
    assert (length (take (Z.to_nat (declared_length rem)) (drop 4 rem))
            = Z.to_nat (declared_length rem)) as Htake
      by (rewrite length_take; lia).
    assert (Hread : read_pickle rd
      = OK (true,
            advanced rd (4 + Z.to_nat (declared_length rem))
              (VPickle (mkPickleReader
                 (mkBytesIO (take 4 rem
                             ++ take (Z.to_nat (declared_length rem))
                                  (drop 4 rem)) 4)
                 (declared_length rem) VNone
                 (4 + Z.to_nat (declared_length rem)))))).
    { rewrite read_pickle_eq. cbv zeta. fold rem.
      rewrite bool_decide_false by lia.
      destruct (Z.ltb_spec (declared_length rem) 0) as [|_]; [lia|].
      rewrite Htake.
      destruct (Z.eqb_spec (Z.of_nat (Z.to_nat (declared_length rem)))
                  (declared_length rem)) as [_|]; [done|lia]. }
    split; [|done].
    assert (length (take 4 rem) = 4%nat) as Hprefix
      by (rewrite length_take; lia).
    assert (declared_length
              (take 4 rem ++ take (Z.to_nat (declared_length rem)) (drop 4 rem))
            = declared_length rem) as Hdecl.
    { unfold declared_length at 1.
      by rewrite (take_app_length' (take 4 rem) _ 4). }
    rewrite PickleReader_init_long by (rewrite length_app; lia).
    rewrite Hdecl, length_app, Hprefix, Htake.
    destruct (Z.eqb_spec (Z.of_nat (4 + Z.to_nat (declared_length rem)) - 4)
                (declared_length rem)) as [_|]; [done|lia].
  - intros Hnot. split.
    + rewrite read_pickle_eq. cbv zeta. fold rem.
      case_bool_decide as Hshort; [done|].
      destruct (Z.ltb_spec (declared_length rem) 0) as [Hneg|Hpos].
      * destruct (Z.eqb_spec (Z.of_nat (length (drop 4 rem)))
                    (declared_length rem)); [lia|done].
      * destruct (Z.eqb_spec
                    (Z.of_nat (length (take (Z.to_nat (declared_length rem))
                                         (drop 4 rem))))
                    (declared_length rem)) as [Heq|]; [|done].
        rewrite length_take in Heq. lia.
    + rewrite remaining_after. by apply drop_ge.
Qed.

Lemma read_pickle_nested_witness :
  read_pickle
    (mkPickleReader (mkBytesIO (bytes_of [6; 0; 0; 0; 2; 0; 0; 0; 7; 9]) 4)
       6 VNone 10)
  = OK (true,
        mkPickleReader (mkBytesIO (bytes_of [6; 0; 0; 0; 2; 0; 0; 0; 7; 9]) 10)
          6
          (VPickle (mkPickleReader (mkBytesIO (bytes_of [2; 0; 0; 0; 7; 9]) 4)
                      2 VNone 6))
          10).
Proof.
  rewrite (proj2 (proj1 (read_pickle_nested
    (mkPickleReader (mkBytesIO (bytes_of [6; 0; 0; 0; 2; 0; 0; 0; 7; 9]) 4)
       6 VNone 10))
    ltac:(split; [cbn; lia|vm_compute; split; discriminate]))).
  reflexivity.
Defined.

Lemma read_timestamp_eq (rd : PickleReader) :
  read_timestamp rd
  = let rem := remaining (_stream rd) in
    if bool_decide (length rem < 8)%nat
    then OK (false, advanced rd (length rem) VNone)
    else
      let x := to_signed 64 (le_unsigned (take 8 rem)) in
      if (datetime_min_us <=? x) && (x <? datetime_end_us)
      then OK (true, advanced rd 8 (VDateTime x))
      else Raise OverflowError.
Proof.
  unfold read_timestamp, _read_int64. rewrite BytesIO_read_nonneg by lia.
  change (Z.to_nat 8) with 8%nat. cbv zeta.
  set (rem := remaining (_stream rd)).
  case_bool_decide as Hshort.
  - rewrite unpack_signed_error by (rewrite length_take; lia).
    by replace (8 `min` length rem)%nat with (length rem) by lia.
  - rewrite unpack_signed_ok by (rewrite length_take; lia).
    change (8 * Z.of_nat 8) with 64. unfold datetime_from_1601.
    replace (8 `min` length rem)%nat with 8%nat by lia.
    by destruct (_ && _).
Qed.

Lemma scalar_read_shape (size k : nat) (signed : bool) (conv : Z -> value)
    (rd : PickleReader) (read : PickleReader -> result (bool * PickleReader))
    (r : bool * PickleReader) :
  (k <= size)%nat ->
  read rd
  = (let rem := remaining (_stream rd) in
     match (if signed then unpack_signed else unpack_unsigned) k
             (take k rem) with
     | OK x => OK (true, advanced rd (size `min` length rem) (conv x))
     | Raise StructError =>
       OK (false, advanced rd (size `min` length rem) VNone)
     | Raise e => Raise e
     end) ->
  read rd = OK r -> read_shape rd r.
Proof.
  intros Hk Heq Hread.
  destruct (scalar_read_cases size k signed conv rd read Hk Heq)
    as [Hok Hfail]. cbv zeta in Hok, Hfail.
  destruct (le_lt_dec k (length (remaining (_stream rd)))) as [Hlen|Hlen].
  - rewrite Hok in Hread by done. injection Hread as <-.
    eexists _, _. split; [done|]. discriminate.
  - rewrite Hfail in Hread by done. injection Hread as <-.
    eexists _, _. split; [done|]. done.
Qed.

Lemma read_blob_shape (is_doubled_length : bool) (rd : PickleReader)
    (r : bool * PickleReader) :
  read_blob is_doubled_length rd = OK r ->
  read_shape rd r
  /\ (current r.2 = VNone \/ exists b, current r.2 = VBytes b).
Proof.
  rewrite read_blob_eq. cbv zeta.
  repeat match goal with
         | |- context [if ?b then _ else _] => destruct b
         end;
    intros [= <-]; (split; [eexists _, _; split; [done|];
                            try discriminate; done|]); eauto.
Qed.

Lemma decode_current_shape (codec : list Z -> option pystr)
    (rd : PickleReader) (r r' : bool * PickleReader) :
  read_shape rd r ->
  decode_current codec r = OK r' -> read_shape rd r'.
Proof.
  intros (n & v & Hrd & Hfail). destruct r as [success rd1].
  simpl in Hrd, Hfail. subst rd1. unfold decode_current.
  destruct success.
  - cbn [current advanced]. destruct v; try (intros [= <-]; by eexists _, _).
    destruct (decode codec b) as [s|e]; [|discriminate].
    rewrite bind_OK. intros [= <-]. eexists n, (VStr s). split; [done|].
    discriminate.
  - intros [= <-]. by eexists _, _.
Qed.

Lemma read_pickle_shape (rd : PickleReader) (r : bool * PickleReader) :
  read_pickle rd = OK r -> read_shape rd r.
Proof.
  rewrite read_pickle_eq. cbv zeta.
  repeat match goal with
         | |- context [if ?b then _ else _] => destruct b
         end;
    intros [= <-]; eexists _, _; (split; [done|]); try discriminate; done.
Qed.

Lemma read_timestamp_shape (rd : PickleReader) (r : bool * PickleReader) :
  read_timestamp rd = OK r -> read_shape rd r.
Proof.
  rewrite read_timestamp_eq. cbv zeta.
  repeat match goal with
         | |- context [if ?b then _ else _] => destruct b
         end;
    try discriminate;
    intros [= <-]; eexists _, _; (split; [done|]); try discriminate; done.
Qed.

Lemma func_lookup_shape (t : PickleType) (rd : PickleReader)
    (r : bool * PickleReader) :
  _func_lookup t rd = OK r -> read_shape rd r.
Proof.
  destruct t; cbn [_func_lookup].
  - apply (scalar_read_shape 4 4 true _ rd read_bool r ltac:(lia)
             (try_struct_32 unpack_signed _ rd)).
  - apply (scalar_read_shape 4 2 true _ rd read_short r ltac:(lia)
             (try_struct_16 unpack_signed _ rd)).
  - apply (scalar_read_shape 4 2 false _ rd read_ushort r ltac:(lia)
             (try_struct_16 unpack_unsigned _ rd)).
  - apply (scalar_read_shape 4 4 true _ rd read_int r ltac:(lia)
             (try_struct_32 unpack_signed _ rd)).
  - apply (scalar_read_shape 4 4 false _ rd read_uint r ltac:(lia)
             (try_struct_32 unpack_unsigned _ rd)).
  - apply (scalar_read_shape 8 8 true _ rd read_long r ltac:(lia)
             (try_struct_64 unpack_signed _ rd)).
  - apply (scalar_read_shape 8 8 false _ rd read_ulong r ltac:(lia)
             (try_struct_64 unpack_unsigned _ rd)).
  - apply (scalar_read_shape 4 4 false _ rd read_single r ltac:(lia)
             (try_struct_32 unpack_unsigned _ rd)).
  - apply (scalar_read_shape 8 8 false _ rd read_double r ltac:(lia)
             (try_struct_64 unpack_unsigned _ rd)).
  - intros Hread. by apply read_blob_shape in Hread as [? _].
  - unfold read_str.
    destruct (read_blob false rd) as [r0|e] eqn:Hblob; [|discriminate].
    rewrite bind_OK. apply decode_current_shape.
    by apply read_blob_shape in Hblob as [? _].
  - unfold read_str16_with_char_count.
    destruct (read_blob true rd) as [r0|e] eqn:Hblob; [|discriminate].
    rewrite bind_OK. apply decode_current_shape.
    by apply read_blob_shape in Hblob as [? _].
  - apply read_timestamp_shape.
  - apply read_pickle_shape.
  - unfold read_str16_with_byte_count.
    destruct (read_blob false rd) as [r0|e] eqn:Hblob; [|discriminate].
    rewrite bind_OK. apply decode_current_shape.
    by apply read_blob_shape in Hblob as [? _].
Qed.

(** ** The cursor only moves forward *)

Lemma moved_forward_refl (rd : PickleReader) : moved_forward rd rd.
Proof. unfold moved_forward. repeat split; lia. Qed.

Lemma moved_forward_trans (rd1 rd2 rd3 : PickleReader) :
  moved_forward rd1 rd2 -> moved_forward rd2 rd3 -> moved_forward rd1 rd3.
Proof.
  unfold moved_forward. intros (? & ? & ? & ?) (? & ? & ? & ?).
  repeat split; try congruence. lia.
Qed.

Lemma func_lookup_forward (t : PickleType) (rd rd' : PickleReader)
    (ok : bool) :
  _func_lookup t rd = OK (ok, rd') -> moved_forward rd rd'.
Proof.
  intros Hread. apply func_lookup_shape in Hread as (n & v & Hrd & _).
  simpl in Hrd. subst rd'. apply moved_forward_advanced.
Qed.

Lemma deserialise_fields_forward (fields : list (string * PickleType))
    (raise_on_missing : bool) (rd rd' : PickleReader)
    (d d' : gmap string value) :
  deserialise_fields fields raise_on_missing rd d = OK (d', rd') ->
  moved_forward rd rd'.
Proof.
  revert rd d. induction fields as [|[field field_type] fields IH];
    intros rd d; simpl.
  - intros [= _ <-]. apply moved_forward_refl.
  - destruct (_func_lookup field_type rd) as [[success rd1]|e] eqn:Hread;
      [|discriminate].
    rewrite bind_OK. cbv beta iota.
    destruct (negb success && raise_on_missing); [discriminate|].
    intros Hrest. eapply moved_forward_trans; [|by eapply IH].
    by eapply func_lookup_forward.
Qed.

Lemma iter_deserialise_forward (fields : list PickleType)
    (raise_on_missing : bool) (rd rd' : PickleReader) (vs : list value) :
  iter_deserialise rd fields raise_on_missing = OK (vs, rd') ->
  moved_forward rd rd' /\ length vs = length fields.
Proof.
  revert rd vs. induction fields as [|field_type fields IH];
    intros rd vs; simpl.
  - intros [= <- <-]. split; [apply moved_forward_refl|done].
  - destruct (_func_lookup field_type rd) as [[success rd1]|e] eqn:Hread;
      [|discriminate].
    rewrite bind_OK. cbv beta iota.
    destruct (negb success && raise_on_missing); [discriminate|].
    destruct (iter_deserialise rd1 fields raise_on_missing)
      as [[vs1 rd2]|e] eqn:Hrest; [|discriminate].
    rewrite bind_OK. cbv beta iota. intros [= <- <-].
    apply IH in Hrest as [Hfwd Hlen]. split; [|simpl; lia].
    eapply moved_forward_trans; [|done]. by eapply func_lookup_forward.
Qed.

(** X5. No read moves the cursor back or touches anything but the cursor
    and the slot: after any typed read that returns, be it a success or a
    failure, and after any run of [deserialise_into_dict] or
    [iter_deserialise] that returns, the reader has the same buffer, the
    same declared length and the same recorded buffer length, and its
    cursor is where it was or further on.  [iter_deserialise] yields one
    value for each field type. *)
Theorem reads_move_forward :
  (forall (t : PickleType) (rd rd' : PickleReader) (ok : bool),
     _func_lookup t rd = OK (ok, rd') -> moved_forward rd rd')
  /\ (forall (fields : list (string * PickleType)) (raise_on_missing : bool)
             (rd rd' : PickleReader) (d : gmap string value),
        deserialise_into_dict rd fields raise_on_missing = OK (d, rd') ->
        moved_forward rd rd')
  /\ (forall (fields : list PickleType) (raise_on_missing : bool)
             (rd rd' : PickleReader) (vs : list value),
        iter_deserialise rd fields raise_on_missing = OK (vs, rd') ->
        moved_forward rd rd' /\ length vs = length fields).
Proof.
  split; [exact func_lookup_forward|]. split.
  - intros fields raise_on_missing rd rd' d.
    apply deserialise_fields_forward.
  - exact iter_deserialise_forward.
Qed.

Lemma reads_move_forward_witness :
  moved_forward
    (mkPickleReader (mkBytesIO (bytes_of [4; 0; 0; 0; 254; 255; 9; 9]) 4)
       4 VNone 8)
    (mkPickleReader (mkBytesIO (bytes_of [4; 0; 0; 0; 254; 255; 9; 9]) 8)
       4 (VInt (-2)) 8).
Proof.
  exact (proj1 reads_move_forward Int16
           (mkPickleReader
              (mkBytesIO (bytes_of [4; 0; 0; 0; 254; 255; 9; 9]) 4) 4 VNone 8)
           (mkPickleReader
              (mkBytesIO (bytes_of [4; 0; 0; 0; 254; 255; 9; 9]) 8)
              4 (VInt (-2)) 8)
           true eq_refl).
Defined.

(** ** Failure is the end of the stream *)

Lemma func_lookup_exhausted (t : PickleType) (rd : PickleReader) :
  remaining (_stream rd) = [] ->
  _func_lookup t rd = OK (false, advanced rd 0 VNone).
Proof.
  intros Hempty.
  assert (forall (size k : nat) (signed : bool) (conv : Z -> value)
                 (read : PickleReader -> result (bool * PickleReader)),
            (0 < k <= size)%nat ->
            read rd
            = (let rem := remaining (_stream rd) in
               match (if signed then unpack_signed else unpack_unsigned) k
                       (take k rem) with
               | OK x => OK (true, advanced rd (size `min` length rem) (conv x))
               | Raise StructError =>
                 OK (false, advanced rd (size `min` length rem) VNone)
               | Raise e => Raise e
               end) ->
            read rd = OK (false, advanced rd 0 VNone)) as Hscalar.
  { intros size k signed conv read Hk Heq.
    destruct (scalar_read_cases size k signed conv rd read ltac:(lia) Heq)
      as [_ Hfail]. cbv zeta in Hfail. rewrite Hempty in Hfail.
    apply Hfail. simpl. lia. }
  assert (forall dbl, read_blob dbl rd = OK (false, advanced rd 0 VNone))
    as Hblob.
  { intros dbl. rewrite read_blob_eq. cbv zeta. rewrite Hempty.
    by rewrite bool_decide_true by (simpl; lia). }
  destruct t; cbn [_func_lookup].
  - apply (Hscalar 4 4 true _ read_bool ltac:(lia)
             (try_struct_32 unpack_signed _ rd))%nat.
  - apply (Hscalar 4 2 true _ read_short ltac:(lia)
             (try_struct_16 unpack_signed _ rd))%nat.
  - apply (Hscalar 4 2 false _ read_ushort ltac:(lia)
             (try_struct_16 unpack_unsigned _ rd))%nat.
  - apply (Hscalar 4 4 true _ read_int ltac:(lia)
             (try_struct_32 unpack_signed _ rd))%nat.
  - apply (Hscalar 4 4 false _ read_uint ltac:(lia)
             (try_struct_32 unpack_unsigned _ rd))%nat.
  - apply (Hscalar 8 8 true _ read_long ltac:(lia)
             (try_struct_64 unpack_signed _ rd))%nat.
  - apply (Hscalar 8 8 false _ read_ulong ltac:(lia)
             (try_struct_64 unpack_unsigned _ rd))%nat.
  - apply (Hscalar 4 4 false _ read_single ltac:(lia)
             (try_struct_32 unpack_unsigned _ rd))%nat.
  - apply (Hscalar 8 8 false _ read_double ltac:(lia)
             (try_struct_64 unpack_unsigned _ rd))%nat.
  - apply Hblob.
  - unfold read_str. by rewrite Hblob.
  - unfold read_str16_with_char_count. by rewrite Hblob.
  - rewrite read_timestamp_eq. cbv zeta. rewrite Hempty.
    by rewrite bool_decide_true by (simpl; lia).
  - rewrite read_pickle_eq. cbv zeta. rewrite Hempty.
    by rewrite bool_decide_true by (simpl; lia).
  - unfold read_str16_with_byte_count. by rewrite Hblob.
Qed.

Lemma func_lookup_failed (t : PickleType) (rd rd' : PickleReader) :
  _func_lookup t rd = OK (false, rd') ->
  current rd' = VNone /\ remaining (_stream rd') = [].
Proof.
  intros Hread. apply func_lookup_shape in Hread as (n & v & Hrd & Hfail).
  simpl in Hrd, Hfail. destruct (Hfail eq_refl) as [-> Hlen]. subst rd'.
  split; [done|]. rewrite remaining_after. by apply drop_ge.
Qed.

(** X6. A typed read that reports failure has cleared the slot and left
    nothing to read, whatever its type and whatever stopped it (too few
    bytes for a scalar, for a length, or for the content a length
    declared).  From then on every read of every type reports failure as
    well, with the slot cleared and the cursor where it is. *)
Theorem failed_read_is_final (t : PickleType) (rd rd' : PickleReader) :
  _func_lookup t rd = OK (false, rd') ->
  current rd' = VNone
  /\ remaining (_stream rd') = []
  /\ (forall t' : PickleType,
        _func_lookup t' rd' = OK (false, advanced rd' 0 VNone)
        /\ remaining (_stream (advanced rd' 0 VNone)) = []).
Proof.
  intros Hread. apply func_lookup_failed in Hread as [Hcur Hempty].
  split; [done|]. split; [done|]. intros t'.
  split; [by apply func_lookup_exhausted|].
  by rewrite remaining_after, Hempty.
Qed.

Lemma failed_read_is_final_witness :
  _func_lookup String
    (mkPickleReader (mkBytesIO (bytes_of [6; 0; 0; 0; 9; 0; 0; 0; 1; 2]) 10)
       6 VNone 10)
  = OK (false,
        mkPickleReader (mkBytesIO (bytes_of [6; 0; 0; 0; 9; 0; 0; 0; 1; 2]) 10)
          6 VNone 10).
Proof.
  exact (proj1 (proj2 (proj2 (failed_read_is_final Blob
    (mkPickleReader (mkBytesIO (bytes_of [6; 0; 0; 0; 9; 0; 0; 0; 1; 2]) 4)
       6 VNone 10)
    (mkPickleReader (mkBytesIO (bytes_of [6; 0; 0; 0; 9; 0; 0; 0; 1; 2]) 10)
       6 VNone 10)
    eq_refl)) String)).
Defined.

(** ** The dictionary of [deserialise_into_dict] *)

Lemma deserialise_fields_only_keys (fields : list (string * PickleType))
    (raise_on_missing : bool) (rd rd' : PickleReader)
    (d d' : gmap string value) (name : string) :
  deserialise_fields fields raise_on_missing rd d = OK (d', rd') ->
  is_Some (d' !! name) -> name ∈ fields.*1 \/ is_Some (d !! name).
Proof.
  revert rd d. induction fields as [|[field field_type] fields IH];
    intros rd d Hrun Hname.
  - injection Hrun as <- <-. by right.
  - simpl in Hrun.
    destruct (_func_lookup field_type rd) as [[success rd1]|e]; [|done].
    rewrite bind_OK in Hrun. cbv beta iota in Hrun.
    destruct (negb success && raise_on_missing); [done|].
    destruct (IH _ _ Hrun Hname) as [Hin|Hd].
    + left. rewrite fmap_cons. apply elem_of_cons. by right.
    + destruct (decide (field = name)) as [->|Hne].
      * left. rewrite fmap_cons. apply elem_of_cons. by left.
      * right. destruct (_ || _); [|done]. by rewrite lookup_insert_ne in Hd.
Qed.

Lemma func_lookup_raises (t : PickleType) (rd : PickleReader) (e : exn) :
  _func_lookup t rd = Raise e -> e = UnicodeDecodeError \/ e = OverflowError.
Proof.
  assert (forall (size k : nat) (signed : bool) (conv : Z -> value)
                 (read : PickleReader -> result (bool * PickleReader)),
            (k <= size)%nat ->
            read rd
            = (let rem := remaining (_stream rd) in
               match (if signed then unpack_signed else unpack_unsigned) k
                       (take k rem) with
               | OK x => OK (true, advanced rd (size `min` length rem) (conv x))
               | Raise StructError =>
                 OK (false, advanced rd (size `min` length rem) VNone)
               | Raise e => Raise e
               end) ->
            read rd = Raise e -> False) as Hscalar.
  { intros size k signed conv read Hk Heq.
    destruct (scalar_read_cases size k signed conv rd read Hk Heq)
      as [Hok Hfail]. cbv zeta in Hok, Hfail.
    destruct (le_lt_dec k (length (remaining (_stream rd)))) as [Hlen|Hlen].
    - by rewrite Hok. - by rewrite Hfail. }
  assert (forall dbl, read_blob dbl rd = Raise e -> False) as Hblob.
  { intros dbl. rewrite read_blob_eq. cbv zeta.
    repeat match goal with
           | |- context [if ?b then _ else _] => destruct b
           end; discriminate. }
  assert (forall dbl codec,
            (r ← read_blob dbl rd; decode_current codec r) = Raise e ->
            e = UnicodeDecodeError) as Hstr.
  { intros dbl codec. destruct (read_blob dbl rd) as [[success rd1]|e1]
      eqn:Hread; [|intros [= ->]; by apply Hblob in Hread].
    rewrite bind_OK. unfold decode_current.
    destruct success; [|discriminate].
    destruct (current rd1); try discriminate.
    unfold decode. destruct (codec _); [discriminate|]. by intros [= <-]. }
  destruct t; cbn [_func_lookup]; intros Hraise.
  - by apply (Hscalar 4 4 true _ read_bool ltac:(lia)
                (try_struct_32 unpack_signed _ rd))%nat in Hraise.
  - by apply (Hscalar 4 2 true _ read_short ltac:(lia)
                (try_struct_16 unpack_signed _ rd))%nat in Hraise.
  - by apply (Hscalar 4 2 false _ read_ushort ltac:(lia)
                (try_struct_16 unpack_unsigned _ rd))%nat in Hraise.
  - by apply (Hscalar 4 4 true _ read_int ltac:(lia)
                (try_struct_32 unpack_signed _ rd))%nat in Hraise.
  - by apply (Hscalar 4 4 false _ read_uint ltac:(lia)
                (try_struct_32 unpack_unsigned _ rd))%nat in Hraise.
  - by apply (Hscalar 8 8 true _ read_long ltac:(lia)
                (try_struct_64 unpack_signed _ rd))%nat in Hraise.
  - by apply (Hscalar 8 8 false _ read_ulong ltac:(lia)
                (try_struct_64 unpack_unsigned _ rd))%nat in Hraise.
  - by apply (Hscalar 4 4 false _ read_single ltac:(lia)
                (try_struct_32 unpack_unsigned _ rd))%nat in Hraise.
  - by apply (Hscalar 8 8 false _ read_double ltac:(lia)
                (try_struct_64 unpack_unsigned _ rd))%nat in Hraise.
  - by apply Hblob in Hraise.
  - left. by eapply Hstr.
  - left. by eapply Hstr.
  - right. revert Hraise. rewrite read_timestamp_eq. cbv zeta.
    repeat match goal with
           | |- context [if ?b then _ else _] => destruct b
           end; try discriminate. by intros [= <-].
  - revert Hraise. rewrite read_pickle_eq. cbv zeta.
    repeat match goal with
           | |- context [if ?b then _ else _] => destruct b
           end; discriminate.
  - left. by eapply Hstr.
Qed.

Lemma deserialise_fields_raises (fields : list (string * PickleType))
    (rd : PickleReader) (d : gmap string value) (e : exn) :
  deserialise_fields fields false rd d = Raise e ->
  e = UnicodeDecodeError \/ e = OverflowError.
Proof.
  revert rd d. induction fields as [|[field field_type] fields IH];
    intros rd d; simpl; [discriminate|].
  destruct (_func_lookup field_type rd) as [[success rd1]|e1] eqn:Hread.
  - rewrite bind_OK. cbv beta iota. rewrite andb_false_r. apply IH.
  - intros [= ->]. by eapply func_lookup_raises.
Qed.

(** X7. Without [raise_on_missing], a field that cannot be read is not an
    error and is not left out: when [deserialise_into_dict] returns, the
    keys of its dictionary are exactly the names in the field list, and
    when it raises, the exception is the [UnicodeDecodeError] of a string
    field or the [OverflowError] of a timestamp, never one for a missing
    field. *)
Theorem deserialise_into_dict_missing (fields : list (string * PickleType))
    (rd : PickleReader) :
  (forall (d : gmap string value) (rd' : PickleReader),
     deserialise_into_dict rd fields false = OK (d, rd') ->
     forall name : string, is_Some (d !! name) <-> name ∈ fields.*1)
  /\ (forall e : exn,
        deserialise_into_dict rd fields false = Raise e ->
        e = UnicodeDecodeError \/ e = OverflowError).
Proof.
  split.
  - intros d rd' Hrun name. split.
    + intros Hsome.
      destruct (deserialise_fields_only_keys _ _ _ _ _ _ _ Hrun Hsome)
        as [Hin|Hd]; [done|].
      rewrite lookup_empty in Hd. by destruct Hd.
    + intros Hin. eapply deserialise_fields_keys; [exact Hrun|]. by left.
  - intros e. apply deserialise_fields_raises.
Qed.

Lemma deserialise_into_dict_missing_witness :
  deserialise_into_dict
    (mkPickleReader (mkBytesIO (bytes_of [0; 0; 0; 0]) 4) 0 VNone 4)
    [("index"%string, Int32)] false
  = OK ({["index"%string := VNone]},
        mkPickleReader (mkBytesIO (bytes_of [0; 0; 0; 0]) 4) 0 VNone 4)
  /\ is_Some (({["index"%string := VNone]} : gmap string value)
              !! "index"%string).
Proof.
  assert (Hrun : deserialise_into_dict
            (mkPickleReader (mkBytesIO (bytes_of [0; 0; 0; 0]) 4) 0 VNone 4)
            [("index"%string, Int32)] false
          = OK ({["index"%string := VNone]},
                mkPickleReader (mkBytesIO (bytes_of [0; 0; 0; 0]) 4)
                  0 VNone 4)) by reflexivity.
  split; [exact Hrun|].
  apply (proj2 (proj1 (deserialise_into_dict_missing
    [("index"%string, Int32)]
    (mkPickleReader (mkBytesIO (bytes_of [0; 0; 0; 0]) 4) 0 VNone 4))
    _ _ Hrun "index"%string)).
  apply elem_of_cons. by left.
Defined.

Lemma deserialise_fields_exhausted (fields : list (string * PickleType))
    (rd : PickleReader) (d : gmap string value) :
  remaining (_stream rd) = [] ->
  exists (d' : gmap string value) (rd' : PickleReader),
    deserialise_fields fields false rd d = OK (d', rd')
    /\ remaining (_stream rd') = []
    /\ forall name : string,
         d' !! name
         = match d !! name with
           | Some v => Some v
           | None => if decide (name ∈ fields.*1) then Some VNone else None
           end.
Proof.
  revert rd d. induction fields as [|[field field_type] fields IH];
    intros rd d Hempty.
  - exists d, rd. split; [done|]. split; [done|]. intros name.
    destruct (d !! name); [done|]. rewrite decide_False; [done|].
    by intros Hin%elem_of_nil.
  - cbn [deserialise_fields]. rewrite func_lookup_exhausted by done.
    rewrite bind_OK. cbv beta iota. cbn [negb andb orb].
    assert (remaining (_stream (advanced rd 0 VNone)) = []) as Hempty'
      by by rewrite remaining_after, Hempty.
    destruct (IH (advanced rd 0 VNone)
                (if negb (bool_decide (is_Some (d !! field))) || false
                 then <[field:=current (advanced rd 0 VNone)]> d else d)
                Hempty') as (d' & rd' & Hrun & Hrem & Hd').
    exists d', rd'. split; [done|]. split; [done|]. intros name.
    rewrite Hd'. rewrite orb_false_r. rewrite fmap_cons. cbn [fst].
    case_bool_decide as Hkey; cbn [negb].
    + destruct (decide (field = name)) as [->|Hne].
      * destruct Hkey as [v Hv]. by rewrite Hv.
      * destruct (d !! name); [done|].
        destruct (decide (name ∈ fields.*1)) as [Hin|Hnin].
        -- rewrite decide_True; [done|]. apply elem_of_cons. by right.
        -- rewrite decide_False; [done|].
           intros [?|?]%elem_of_cons; [congruence|done].
    + destruct (decide (field = name)) as [->|Hne].
      * rewrite lookup_insert_eq.
        destruct (d !! name) eqn:Hd; [by destruct Hkey; eexists|].
        rewrite decide_True; [done|]. apply elem_of_cons. by left.
      * rewrite lookup_insert_ne by done.
        destruct (d !! name); [done|].
        destruct (decide (name ∈ fields.*1)) as [Hin|Hnin].
        -- rewrite decide_True; [done|]. apply elem_of_cons. by right.
        -- rewrite decide_False; [done|].
           intros [?|?]%elem_of_cons; [congruence|done].
Qed.

(** X8. On a reader with nothing left to read, [deserialise_into_dict]
    without [raise_on_missing] returns the dictionary that maps every
    listed name to [None]; with [raise_on_missing] and a field list that is
    not empty it raises the [ValueError] of the first field. *)
Theorem deserialise_into_dict_exhausted (fields : list (string * PickleType))
    (rd : PickleReader) :
  remaining (_stream rd) = [] ->
  (exists (d : gmap string value) (rd' : PickleReader),
     deserialise_into_dict rd fields false = OK (d, rd')
     /\ forall name : string,
          d !! name = if decide (name ∈ fields.*1) then Some VNone else None)
  /\ (fields ≠ [] ->
      deserialise_into_dict rd fields true
      = Raise (ValueError "Field: {0} couldn't be read.")).
Proof.
  intros Hempty. split.
  - destruct (deserialise_fields_exhausted fields rd ∅ Hempty)
      as (d & rd' & Hrun & _ & Hd).
    exists d, rd'. split; [done|]. intros name.
    by rewrite Hd, lookup_empty.
  - intros Hne. destruct fields as [|[field field_type] fields]; [done|].
    unfold deserialise_into_dict. simpl.
    by rewrite func_lookup_exhausted by done.
Qed.

Lemma deserialise_into_dict_exhausted_witness :
  deserialise_into_dict
    (mkPickleReader (mkBytesIO (bytes_of [0; 0; 0; 0]) 4) 0 VNone 4)
    NavigationEntry.fields true
  = Raise (ValueError "Field: {0} couldn't be read.").
Proof.
  apply (proj2 (deserialise_into_dict_exhausted NavigationEntry.fields
    (mkPickleReader (mkBytesIO (bytes_of [0; 0; 0; 0]) 4) 0 VNone 4)
    eq_refl)).
  discriminate.
Defined.

(** * Further properties of the tab-state decoders *)

(** ** Which transitions decode *)

Lemma core_transitions_keys (k : Z) :
  (exists name, ChromeTransition.dict_get ChromeTransition._core_transitions k
                = OK name)
  <-> 0 <= k <= 10.
Proof.
  unfold ChromeTransition._core_transitions. cbn [ChromeTransition.dict_get].
  repeat match goal with
         | |- context [?a =? k] => destruct (Z.eqb_spec a k); [subst k|]
         end; try (split; [lia|eauto]).
  split; [intros [name Hname]; discriminate|lia].
Qed.

Lemma unsigned_low_byte (value : Z) :
  Z.land (if value <? 0 then value + 0x80000000 * 2 else value)
    ChromeTransition._core_mask
  = value mod 256.
Proof.
  change ChromeTransition._core_mask with (Z.ones 8).
  rewrite Z.land_ones by lia. change (2 ^ 8) with 256.
  destruct (value <? 0); [|done].
  change (0x80000000 * 2) with (16777216 * 256).
  by rewrite Z.mod_add by lia.
Qed.

(** X9. A transition value decodes exactly when its low byte is one of the
    eleven core kinds 0 to 10: the constructor returns for such a value,
    negative or not, and raises [KeyError] for every other, whatever the
    high bits.  The transition it returns keeps the raw value and has the
    core kind the table gives for the low byte. *)
Theorem ChromeTransition_decodes (value : Z) :
  ((exists t, ChromeTransition.__init__ value = OK t) <-> value mod 256 <= 10)
  /\ (10 < value mod 256 -> ChromeTransition.__init__ value = Raise KeyError)
  /\ (forall t,
        ChromeTransition.__init__ value = OK t ->
        ChromeTransition.value t = value
        /\ ChromeTransition.dict_get ChromeTransition._core_transitions
             (value mod 256)
           = OK (ChromeTransition.core_transition t)).
Proof.
  pose proof (Z.mod_pos_bound value 256 ltac:(lia)) as Hbyte.
  pose proof (core_transitions_keys (value mod 256)) as Hkeys.
  unfold ChromeTransition.__init__. rewrite unsigned_low_byte.
  destruct (ChromeTransition.dict_get ChromeTransition._core_transitions
              (value mod 256)) as [core|e] eqn:Hcore.
  - rewrite bind_OK. split; [|split].
    + split; [intros _; apply Hkeys; eauto|eauto].
    + intros Hhigh. assert (0 <= value mod 256 <= 10) by (apply Hkeys; eauto).
      lia.
    + by intros t [= <-].
  - rewrite bind_Raise. split; [|split].
    + split; [intros [t Ht]; discriminate|].
      intros Hlow. destruct (proj2 Hkeys ltac:(lia)) as [name Hname].
      discriminate.
    + intros _. f_equal.
      clear Hkeys. revert Hcore.
      unfold ChromeTransition._core_transitions.
      cbn [ChromeTransition.dict_get].
      repeat match goal with
             | |- context [if ?b then _ else _] => destruct b
             end; congruence.
    + intros t Ht. discriminate.
Qed.

Lemma ChromeTransition_decodes_witness :
  ChromeTransition.__init__ (-246)
  = OK (ChromeTransition.mk (-246) "KeywordGenerated"
          ["Blocked"; "ForwardBack"; "FromAddressBar"; "HomePage"; "FromApi";
           "ChainStart"; "ChainEnd"; "ClientRedirect"; "ServerRedirect"]%string)
  /\ ChromeTransition.__init__ 11 = Raise KeyError.
Proof.
  split; [reflexivity|].
  apply (proj1 (proj2 (ChromeTransition_decodes 11))). reflexivity.
Defined.

(** ** Which qualifiers a transition has *)

Lemma land_pow2 (a b : Z) :
  0 <= b -> Z.land a (2 ^ b) = if Z.testbit a b then 2 ^ b else 0.
Proof.
  intros Hb. apply Z.bits_inj'. intros i Hi.
  rewrite Z.land_spec, Z.pow2_bits_eqb by done.
  destruct (Z.eqb_spec b i) as [->|Hne].
  - destruct (Z.testbit a i); simpl.
    + by rewrite Z.pow2_bits_true.
    + by rewrite Z.bits_0.
  - rewrite andb_false_r.
    destruct (Z.testbit a b); [|by rewrite Z.bits_0].
    rewrite Z.pow2_bits_eqb by done.
    by destruct (Z.eqb_spec b i).
Qed.

Lemma unsigned_bit (value b : Z) :
  0 <= b < 32 ->
  Z.testbit (if value <? 0 then value + 0x80000000 * 2 else value) b
  = Z.testbit value b.
Proof.
  intros Hb. destruct (value <? 0); [|done].
  rewrite <- (Z.mod_pow2_bits_low (value + 0x80000000 * 2) 32 b) by lia.
  rewrite <- (Z.mod_pow2_bits_low value 32 b) by lia.
  change (0x80000000 * 2) with (1 * 2 ^ 32).
  by rewrite Z.mod_add by lia.
Qed.

Lemma qualifier_test (value b : Z) :
  8 <= b < 32 ->
  (0 <? Z.land (Z.land (if value <? 0 then value + 0x80000000 * 2 else value)
                  ChromeTransition._qualifier_mask) (2 ^ b))
  = Z.testbit value b.
Proof.
  intros Hb. rewrite <- Z.land_assoc.
  rewrite (land_pow2 ChromeTransition._qualifier_mask b) by lia.
  assert (Z.testbit ChromeTransition._qualifier_mask b = true) as ->.
  { unfold ChromeTransition._qualifier_mask.
    assert (b = 8 \/ b = 9 \/ b = 10 \/ b = 11 \/ b = 12 \/ b = 13 \/ b = 14
            \/ b = 15 \/ b = 16 \/ b = 17 \/ b = 18 \/ b = 19 \/ b = 20
            \/ b = 21 \/ b = 22 \/ b = 23 \/ b = 24 \/ b = 25 \/ b = 26
            \/ b = 27 \/ b = 28 \/ b = 29 \/ b = 30 \/ b = 31) as Hcases by lia.
    repeat destruct Hcases as [->|Hcases]; try reflexivity.
    subst b. reflexivity. }
  rewrite land_pow2 by lia. rewrite unsigned_bit by lia.
  assert (0 < 2 ^ b) by (apply Z.pow_pos_nonneg; lia).
  destruct (Z.testbit value b).
  - by apply Z.ltb_lt.
  - reflexivity.
Qed.

Lemma sign_bit (value : Z) :
  - 2 ^ 31 <= value < 0 -> Z.testbit value 31 = true.
Proof.
  intros Hrange. apply Z.testbit_true; [lia|].
  assert (value / 2 ^ 31 = -1) as ->; [|reflexivity].
  symmetry. apply (Z.div_unique_pos value (2 ^ 31) (-1) (value + 2 ^ 31));
    lia.
Qed.

(** X10. The qualifiers of a decoded transition are read off the bits of
    the raw value: the name of each entry of the qualifier table is in the
    list exactly when the bit of its flag is set in the value, taken in
    two's complement when the value is negative.  So a transition decoded
    from a negative 32-bit value always has [ServerRedirect], the
    qualifier of bit 31. *)
Theorem ChromeTransition_qualifier_bits (value : Z) (t : ChromeTransition.t) :
  ChromeTransition.__init__ value = OK t ->
  (forall flag name,
     (flag, name) ∈ ChromeTransition._qualifiers ->
     (name ∈ ChromeTransition.qualifiers t
      <-> Z.testbit value (Z.log2 flag) = true))
  /\ (- 2 ^ 31 <= value < 0 ->
      "ServerRedirect"%string ∈ ChromeTransition.qualifiers t).
Proof.
  unfold ChromeTransition.__init__.
  destruct (ChromeTransition.dict_get _ _) as [core|e]; [|discriminate].
  rewrite bind_OK. intros [= <-]. cbn [ChromeTransition.qualifiers].
  assert (Hbits : forall flag name,
    (flag, name) ∈ ChromeTransition._qualifiers ->
    (name ∈ map snd
              (filter
                 (fun q : Z * string =>
                    0 <? Z.land
                           (Z.land (if value <? 0 then value + 0x80000000 * 2
                                    else value)
                              ChromeTransition._qualifier_mask) q.1)
                 ChromeTransition._qualifiers)
     <-> Z.testbit value (Z.log2 flag) = true)).
  { intros flag name Hin. rewrite list_elem_of_In, in_map_iff.
    assert (Htest : forall b, 8 <= b < 32 -> flag = 2 ^ b ->
      (0 <? Z.land
              (Z.land (if value <? 0 then value + 0x80000000 * 2 else value)
                 ChromeTransition._qualifier_mask) flag)
      = Z.testbit value (Z.log2 flag)).
    { intros b Hb ->. rewrite Z.log2_pow2 by lia. by apply qualifier_test. }
    assert (exists b, 8 <= b < 32 /\ flag = 2 ^ b) as (b & Hb & Hflag).
    { pose proof Hin as Hin'. unfold ChromeTransition._qualifiers in Hin'.
      repeat (apply elem_of_cons in Hin' as [Heq|Hin'];
              [injection Heq as -> _;
               first [ exists 23; split; [lia|reflexivity]
                     | exists 24; split; [lia|reflexivity]
                     | exists 25; split; [lia|reflexivity]
                     | exists 26; split; [lia|reflexivity]
                     | exists 27; split; [lia|reflexivity]
                     | exists 28; split; [lia|reflexivity]
                     | exists 29; split; [lia|reflexivity]
                     | exists 30; split; [lia|reflexivity]
                     | exists 31; split; [lia|reflexivity] ]|]).
      by apply elem_of_nil in Hin'. }
    specialize (Htest b Hb Hflag).
    split.
    - intros ([flag' name'] & Hname & Hq).
      apply list_elem_of_In, list_elem_of_filter in Hq.
      destruct Hq as [Hholds Hq]. cbn [snd fst] in Hname, Hholds.
      subst name'.
      assert (flag' = flag) as ->.
      { clear -Hin Hq. unfold ChromeTransition._qualifiers in Hin, Hq.
        repeat (apply elem_of_cons in Hin as [[= -> ->]|Hin];
                [repeat (apply elem_of_cons in Hq as [Hq|Hq];
                         [by injection Hq|]); by apply elem_of_nil in Hq|]).
        by apply elem_of_nil in Hin. }
      rewrite <- Htest. by apply Is_true_true.
    - intros Hset. exists (flag, name). split; [done|].
      apply list_elem_of_In, list_elem_of_filter. split; [|done]. cbn [fst].
      rewrite Htest. by apply Is_true_true. }
  split; [exact Hbits|].
  intros Hneg. apply (Hbits 0x80000000).
  - unfold ChromeTransition._qualifiers.
    do 8 (apply elem_of_cons; right). apply elem_of_cons. by left.
  - by apply sign_bit.
Qed.

Lemma ChromeTransition_qualifier_bits_witness :
  "ServerRedirect"%string
  ∈ ["Blocked"; "ServerRedirect"]%string.
Proof.
  exact (proj2 (ChromeTransition_qualifier_bits (-2139095040)
                  (ChromeTransition.mk (-2139095040) "Link"
                     ["Blocked"; "ServerRedirect"]%string)
                  eq_refl) ltac:(lia)).
Defined.
